(** * stream-rag-agent: the window package

    A shallow embedding of [internal/window] (the [Window] entity with its
    textual summary, and the [Manager] that rotates windows) together with
    the properties of the window-lifecycle engine, and of the callers of
    the package: the Kafka consumer, the window processor of [main], the
    k-NN search of [internal/vectordb] and the query handler of
    [internal/api].

    Conventions.
    - Go [string] and [[]byte] are sequences of bytes: [string].
    - Go [int], [int32], [int64] are [Z]; the arithmetic performed on them
      that can leave the range is [MessageCount++], the product that gives
      the duration of a window and the conversion [int32(...)] of the
      consumer, whose wrap-around is written out ([int_wrap],
      [int32_wrap]).
    - The services behind an interface or a network call (JSON decoding,
      the embedding service, the store and its search, the model) are
      parameters, given by what they return.
    - [time.Time] is the number of nanoseconds since the epoch, a [Z].
    - [*Window] is an address into a heap of [Window] objects: the
      registry, the scheduler goroutines and the hand-off goroutines all
      hold the same object.
    - [m.mu] makes every critical section one atomic step; goroutines are
      explicit components of the state. *)

From stdpp Require Import gmap strings list fin_maps pretty.
From Stdlib Require Import ZArith Ascii.

Local Open Scope Z_scope.

(** ** Formatting helpers of [fmt.Sprintf] *)

(** The line feed written by ["\n"]. *)
Definition nl : string := String "010"%char EmptyString.

(** [%d] *)
Definition fmt_d (z : Z) : string := pretty z.

(** Two's complement wrap-around of the 64-bit [int]. *)
Definition int_wrap (z : Z) : Z := (z + 2 ^ 63) `mod` 2 ^ 64 - 2 ^ 63.

Definition int_max : Z := 2 ^ 63 - 1.

(** ** package config *)

Module config.
Record KafkaTopicConfig := {
  Name : string;
  Context : string;
  WindowDurationSeconds : Z;
  WindowMaxMessages : Z
}.
End config.

(** ** Messages and windows *)

Module RawKafkaMessage.
Record t := {
  Topic : string;
  Partition : Z;
  Offset : Z;
  Key : string;
  Value : string;
  Timestamp : Z
}.
End RawKafkaMessage.

Record Window := {
  ID : string;
  Topic : string;
  Partition : Z;
  StartTime : Z;
  EndTime : Z;
  Messages : list RawKafkaMessage.t;
  Context : string;
  IsClosed : bool;
  MessageCount : Z
}.

(** [NewWindow]; the zero value of the unset [EndTime] is written [0]. *)
Definition NewWindow (topic : string) (partition : Z) (startTime : Z)
    (topicContext : string) : Window :=
  {| ID := topic +:+ "_" +:+ fmt_d partition +:+ "_" +:+ fmt_d startTime;
     Topic := topic;
     Partition := partition;
     StartTime := startTime;
     EndTime := 0;
     Messages := [];
     Context := topicContext;
     IsClosed := false;
     MessageCount := 0 |}.

(** [(w *Window) AddMessage] *)
Definition Window_AddMessage (w : Window) (msg : RawKafkaMessage.t) : Window :=
  {| ID := ID w;
     Topic := Topic w;
     Partition := Partition w;
     StartTime := StartTime w;
     EndTime := RawKafkaMessage.Timestamp msg;
     Messages := Messages w ++ [msg];
     Context := Context w;
     IsClosed := IsClosed w;
     MessageCount := int_wrap (MessageCount w + 1) |}.

(** The data-model invariant [count == len(events)]. *)
Definition window_wf (w : Window) : Prop :=
  MessageCount w = Z.of_nat (length (Messages w)).

(** ** [(w *Window) ToContextString] *)

(** Go's [error]; [None] is [nil]. *)
Definition error : Type := option string.

Section Summary.
(** What the standard library contributes: the values a JSON object
    holds, [json.Unmarshal] into a [map[string]interface{}] ([None] when
    it returns an error), the [%v] verb and [Format(time.RFC3339)]. *)
Variable JValue : Type.
Variable json_Unmarshal : string → option (gmap string JValue).
Variable fmt_v : JValue → string.
Variable format_RFC3339 : Z → string.

(** [for k, v := range data] visits the entries in an order the runtime
    picks afresh at every loop; [order i data] is the order picked when
    the message at index [i] is rendered. *)
Definition range_order : Type := nat → gmap string JValue → list (string * JValue).

Definition range_valid (order : range_order) : Prop :=
  ∀ i data, order i data ≡ₚ map_to_list data.

Definition no_messages_text (w : Window) : string :=
  "Topic: " +:+ Topic w +:+ ", Window ID: " +:+ ID w +:+ ", No messages in this window.".

Definition raw_line (msg : RawKafkaMessage.t) : string :=
  "  - Raw Message (Offset: " +:+ fmt_d (RawKafkaMessage.Offset msg) +:+ "): "
    +:+ RawKafkaMessage.Value msg +:+ nl.

Definition details_line (msg : RawKafkaMessage.t) : string :=
  "  - Message (Offset: " +:+ fmt_d (RawKafkaMessage.Offset msg) +:+ ") Details:" +:+ nl.

Definition pair_line (kv : string * JValue) : string :=
  "    - " +:+ kv.1 +:+ ": " +:+ fmt_v kv.2 +:+ nl.

Definition truncation_notice (omitted : Z) : string :=
  "  ...and " +:+ fmt_d omitted +:+ " more messages (truncated for summary)." +:+ nl.

(** The [WriteString] calls of one loop body. *)
Definition render_message (order : range_order) (i : nat)
    (msg : RawKafkaMessage.t) : list string :=
  match json_Unmarshal (RawKafkaMessage.Value msg) with
  | None => [raw_line msg]
  | Some data => details_line msg :: (pair_line <$> order i data)
  end.

(** [for i := 0; i < maxSummarizeMessages; i++]: [n] iterations are left,
    [sb] is what the builder received so far; [w.Messages[i]] out of
    range panics ([None]). *)
Fixpoint summary_loop (order : range_order) (msgs : list RawKafkaMessage.t)
    (n : nat) (i : nat) (sb : list string) : option (list string) :=
  match n with
  | O => Some sb
  | S n' =>
      match msgs !! i with
      | None => None
      | Some msg => summary_loop order msgs n' (S i) (sb ++ render_message order i msg)
      end
  end.

(** The writes of the loop bodies for the messages [msgs], the first of
    which has index [i]. *)
Fixpoint render_from (order : range_order) (i : nat)
    (msgs : list RawKafkaMessage.t) : list string :=
  match msgs with
  | [] => []
  | msg :: rest => render_message order i msg ++ render_from order (S i) rest
  end.

Definition summary_header (w : Window) : list string :=
  [ "Kafka Topic: " +:+ Topic w +:+ nl;
    "Topic Context: " +:+ Context w +:+ nl;
    "Window ID: " +:+ ID w +:+ ", Time Range: " +:+ format_RFC3339 (StartTime w)
      +:+ " - " +:+ format_RFC3339 (EndTime w) +:+ ", Total Messages: "
      +:+ fmt_d (MessageCount w) +:+ nl;
    "Messages:" +:+ nl ].

Definition maxSummarizeMessages (w : Window) : Z :=
  if MessageCount w <? 10 then MessageCount w else 10.

(** The sequence of strings written to [sb] on the non-empty path. *)
Definition summary_writes (order : range_order) (w : Window) : option (list string) :=
  match summary_loop order (Messages w) (Z.to_nat (maxSummarizeMessages w)) 0
          (summary_header w) with
  | None => None
  | Some sb =>
      if maxSummarizeMessages w <? MessageCount w
      then Some (sb ++ [truncation_notice (MessageCount w - maxSummarizeMessages w)])
      else Some sb
  end.

(** [sb.String()] *)
Definition sb_String (sb : list string) : string := foldr String.append "" sb.

(** The result is [None] when the call panics, else the pair returned. *)
Definition Window_ToContextString (order : range_order) (w : Window)
    : option (string * error) :=
  if decide (length (Messages w) = 0%nat)
  then Some (no_messages_text w, None)
  else (λ sb, (sb_String sb, None)) <$> summary_writes order w.
End Summary.

(** ** The manager, its registry and its goroutines *)

(** Where a [timeBasedFlusher] goroutine stands. *)
Inductive flusher_state :=
  | FRunning   (** started, or back at the top of the loop, not yet in [select] *)
  | FParked    (** blocked in [select], queued as a receiver of [flushTrigger] *)
  | FTicked    (** took [<-ticker.C], about to lock [m.mu] *)
  | FFlushed   (** took [<-m.flushTrigger], about to lock [m.mu] *)
  | FExited.   (** returned *)

Global Instance flusher_state_eq_dec : EqDecision flusher_state.
Proof. solve_decision. Defined.

(** The [Manager] ([windows], [cfg], [flushTrigger]) with the objects and
    goroutines it owns. [heap] holds every [Window] ever allocated, by
    address; [flushers] the goroutine started for each of them; [recvq] the
    goroutines blocked on [flushTrigger], oldest first; [handoffs] the
    goroutines of [closeWindow] whose [ProcessWindow] call has not returned
    yet. [handed] (every hand-off ever made, in order) and [logs] (the
    [log.Printf] lines) only record history. *)
Record World := {
  windows : gmap string nat;
  cfg : config.KafkaTopicConfig;
  flushTrigger : bool;
  heap : list Window;
  flushers : list flusher_state;
  recvq : list nat;
  handoffs : list nat;
  handed : list nat;
  logs : list string
}.

Definition set_windows (f : gmap string nat → gmap string nat) (s : World) : World :=
  {| windows := f (windows s); cfg := cfg s; flushTrigger := flushTrigger s;
     heap := heap s; flushers := flushers s; recvq := recvq s;
     handoffs := handoffs s; handed := handed s; logs := logs s |}.

Definition set_flushTrigger (b : bool) (s : World) : World :=
  {| windows := windows s; cfg := cfg s; flushTrigger := b;
     heap := heap s; flushers := flushers s; recvq := recvq s;
     handoffs := handoffs s; handed := handed s; logs := logs s |}.

Definition set_heap (f : list Window → list Window) (s : World) : World :=
  {| windows := windows s; cfg := cfg s; flushTrigger := flushTrigger s;
     heap := f (heap s); flushers := flushers s; recvq := recvq s;
     handoffs := handoffs s; handed := handed s; logs := logs s |}.

Definition set_flushers (f : list flusher_state → list flusher_state) (s : World) : World :=
  {| windows := windows s; cfg := cfg s; flushTrigger := flushTrigger s;
     heap := heap s; flushers := f (flushers s); recvq := recvq s;
     handoffs := handoffs s; handed := handed s; logs := logs s |}.

Definition set_recvq (f : list nat → list nat) (s : World) : World :=
  {| windows := windows s; cfg := cfg s; flushTrigger := flushTrigger s;
     heap := heap s; flushers := flushers s; recvq := f (recvq s);
     handoffs := handoffs s; handed := handed s; logs := logs s |}.

Definition set_handoffs (f : list nat → list nat) (s : World) : World :=
  {| windows := windows s; cfg := cfg s; flushTrigger := flushTrigger s;
     heap := heap s; flushers := flushers s; recvq := recvq s;
     handoffs := f (handoffs s); handed := handed s; logs := logs s |}.

Definition set_handed (f : list nat → list nat) (s : World) : World :=
  {| windows := windows s; cfg := cfg s; flushTrigger := flushTrigger s;
     heap := heap s; flushers := flushers s; recvq := recvq s;
     handoffs := handoffs s; handed := f (handed s); logs := logs s |}.

(** [log.Printf] *)
Definition log_Printf (line : string) (s : World) : World :=
  {| windows := windows s; cfg := cfg s; flushTrigger := flushTrigger s;
     heap := heap s; flushers := flushers s; recvq := recvq s;
     handoffs := handoffs s; handed := handed s; logs := logs s ++ [line] |}.

(** [NewManager] *)
Definition NewManager (c : config.KafkaTopicConfig) : World :=
  {| windows := ∅; cfg := c; flushTrigger := false;
     heap := []; flushers := []; recvq := [];
     handoffs := []; handed := []; logs := [] |}.

(** [fmt.Sprintf("%s_%d", topic, partition)] *)
Definition window_key (topic : string) (partition : Z) : string :=
  topic +:+ "_" +:+ fmt_d partition.

Definition key_of (w : Window) : string := window_key (Topic w) (Partition w).

(** [m.windows[key] = w; go m.timeBasedFlusher(w)] for a window [w] just
    made by [NewWindow]: the object gets the next address and its goroutine
    starts. *)
Definition install (key : string) (w : Window) (s : World) : World :=
  set_windows (insert key (length (heap s)))
    (set_flushers (λ fs, fs ++ [FRunning]) (set_heap (λ h, h ++ [w]) s)).

(** [w.IsClosed = true; w.EndTime = time.Now()] *)
Definition mark_closed (now : Z) (w : Window) : Window :=
  {| ID := ID w; Topic := Topic w; Partition := Partition w;
     StartTime := StartTime w; EndTime := now; Messages := Messages w;
     Context := Context w; IsClosed := true; MessageCount := MessageCount w |}.

(** [(m *Manager) closeWindow], up to the [go func()] that it starts; the
    body of that goroutine is [handoff_finish]. *)
Definition Manager_closeWindow (a : nat) (now : Z) (s : World) : World :=
  match heap s !! a with
  | None => s
  | Some w =>
      if IsClosed w then s
      else set_handed (λ l, l ++ [a])
             (set_handoffs (λ l, l ++ [a])
                (set_heap (λ h, <[a := mark_closed now w]> h) s))
  end.

(** The goroutine started by [closeWindow], from the return of
    [m.processor.ProcessWindow(w)] with [err] to its end. *)
Definition handoff_finish (a : nat) (err : error) (now : Z) (s : World) : World :=
  if decide (a ∈ handoffs s) then
    match heap s !! a with
    | None => s
    | Some w =>
        let s1 := match err with
                  | Some e => log_Printf ("Error processing window " +:+ ID w +:+ ": " +:+ e) s
                  | None => s
                  end in
        let s2 := set_windows (delete (key_of w)) s1 in
        let s3 := install (key_of w)
                    (NewWindow (Topic w) (Partition w) now (config.Context (cfg s))) s2 in
        set_handoffs (λ l, filter (λ b, b ≠ a) l) s3
    end
  else s.

(** [(m *Manager) Start] *)
Definition Manager_Start (partition : Z) (now : Z) (s : World) : World :=
  let s1 := log_Printf ("Starting window manager for topic: " +:+ config.Name (cfg s)
                          +:+ ", partition: " +:+ fmt_d partition) s in
  install (window_key (config.Name (cfg s)) partition)
    (NewWindow (config.Name (cfg s)) partition now (config.Context (cfg s))) s1.

(** [(m *Manager) AddMessage]; [now] is what [time.Now()] returns should
    [closeWindow] be reached. *)
Definition Manager_AddMessage (msg : RawKafkaMessage.t) (now : Z) (s : World) : World :=
  let key := window_key (RawKafkaMessage.Topic msg) (RawKafkaMessage.Partition msg) in
  let '(a, s1) :=
    match windows s !! key with
    | Some a => (a, s)
    | None =>
        let s' := log_Printf ("Warning: No active window for topic "
                    +:+ RawKafkaMessage.Topic msg +:+ ", partition "
                    +:+ fmt_d (RawKafkaMessage.Partition msg) +:+ ". Creating new.") s in
        (length (heap s'),
         install key (NewWindow (RawKafkaMessage.Topic msg) (RawKafkaMessage.Partition msg)
                        (RawKafkaMessage.Timestamp msg) (config.Context (cfg s))) s')
    end in
  match heap s1 !! a with
  | None => s1
  | Some w =>
      let w' := Window_AddMessage w msg in
      let s2 := set_heap (λ h, <[a := w']> h) s1 in
      if (0 <? config.WindowMaxMessages (cfg s))
         && (config.WindowMaxMessages (cfg s) <=? MessageCount w')
      then Manager_closeWindow a now
             (log_Printf ("Window for " +:+ config.Name (cfg s) +:+ "/" +:+ fmt_d (Partition w')
                +:+ " reached max messages (" +:+ fmt_d (MessageCount w') +:+ "). Closing.") s2)
      else s2
  end.

(** *** [(m *Manager) timeBasedFlusher] *)

(** [time.Duration(m.config.WindowDurationSeconds) * time.Second], an
    [int64] product of nanoseconds. [time.NewTicker] panics unless it is
    positive; the configurations considered are those where it is. *)
Definition window_duration (s : World) : Z :=
  int_wrap (config.WindowDurationSeconds (cfg s) * 1000000000).

(** [time.Since(t)]: the difference, saturated to the range of
    [time.Duration]. *)
Definition time_Since (now t : Z) : Z :=
  Z.max (- 2 ^ 63) (Z.min int_max (now - t)).

Definition flusher_is (a : nat) (st : flusher_state) (s : World) : bool :=
  bool_decide (flushers s !! a = Some st).

Definition set_flusher (a : nat) (st : flusher_state) (s : World) : World :=
  set_flushers (λ fs, <[a := st]> fs) s.

(** The goroutine of window [a] reaches [select] and neither channel is
    ready: it blocks, the last in the receive queue of [flushTrigger]. *)
Definition flusher_park (a : nat) (s : World) : World :=
  if flusher_is a FRunning s && negb (flushTrigger s)
  then set_recvq (λ q, q ++ [a]) (set_flusher a FParked s)
  else s.

(** It reaches [select] and takes the buffered element of [flushTrigger]. *)
Definition flusher_recv (a : nat) (s : World) : World :=
  if flusher_is a FRunning s && flushTrigger s
  then set_flushTrigger false (set_flusher a FFlushed s)
  else s.

(** [case <-ticker.C] is chosen, at [select] or while blocked in it. *)
Definition flusher_tick (a : nat) (s : World) : World :=
  if flusher_is a FRunning s || flusher_is a FParked s
  then set_recvq (λ q, filter (λ b, b ≠ a) q) (set_flusher a FTicked s)
  else s.

(** The critical section of [case <-ticker.C]. *)
Definition flusher_on_tick (a : nat) (now : Z) (s : World) : World :=
  if flusher_is a FTicked s then
    match heap s !! a with
    | None => s
    | Some w =>
        if negb (IsClosed w) && (window_duration s <=? time_Since now (StartTime w))
        then set_flusher a FExited
               (Manager_closeWindow a now
                  (log_Printf ("Window for " +:+ config.Name (cfg s) +:+ "/"
                     +:+ fmt_d (Partition w) +:+ " timed out ("
                     +:+ fmt_d (config.WindowDurationSeconds (cfg s)) +:+ " sec). Closing.") s))
        else set_flusher a FRunning s
    end
  else s.

(** The critical section of [case <-m.flushTrigger]. *)
Definition flusher_on_flush (a : nat) (now : Z) (s : World) : World :=
  if flusher_is a FFlushed s then
    match heap s !! a with
    | None => s
    | Some w =>
        set_flusher a FExited
          (if negb (IsClosed w)
           then Manager_closeWindow a now
                  (log_Printf ("Window for " +:+ config.Name (cfg s) +:+ "/"
                     +:+ fmt_d (Partition w) +:+ " explicitly flushed. Closing.") s)
           else s)
    end
  else s.

(** *** [(m *Manager) FlushAllWindows] *)

(** What became of one [m.flushTrigger <- struct{}{}] under [select] with a
    [default]. *)
Inductive send_outcome :=
  | Delivered (receiver : nat)   (** handed to the oldest blocked receiver *)
  | Buffered                     (** stored in the channel's single slot *)
  | Dropped.                     (** the [default] case *)

Global Instance send_outcome_eq_dec : EqDecision send_outcome.
Proof. solve_decision. Defined.

Definition flush_send (s : World) : World * send_outcome :=
  match recvq s with
  | r :: q => (set_recvq (λ _, q) (set_flusher r FFlushed s), Delivered r)
  | [] =>
      if flushTrigger s then (s, Dropped)
      else (set_flushTrigger true s, Buffered)
  end.

Definition window_open (s : World) (key : string) : bool :=
  match windows s !! key with
  | Some a => match heap s !! a with Some w => negb (IsClosed w) | None => false end
  | None => false
  end.

(** The body of [for _, w := range m.windows], over the keys in the order
    the runtime visits them; the second component records the fate of each
    send. *)
Fixpoint flush_loop (order : list string) (s : World)
    : World * list (string * send_outcome) :=
  match order with
  | [] => (s, [])
  | key :: rest =>
      if window_open s key then
        let '(s1, o) := flush_send s in
        let '(s2, os) := flush_loop rest s1 in
        (s2, (key, o) :: os)
      else flush_loop rest s
  end.

(** [order] is the iteration order of the map: a permutation of its keys. *)
Definition map_order (order : list string) (s : World) : Prop :=
  order ≡ₚ (map_to_list (windows s)).*1.

Global Instance map_order_dec order s : Decision (map_order order s).
Proof. unfold map_order. apply _. Defined.

Definition Manager_FlushAllWindows (order : list string) (s : World) : World :=
  if decide (map_order order s) then (flush_loop order s).1 else s.

Definition flush_outcomes (order : list string) (s : World) : list (string * send_outcome) :=
  (flush_loop order s).2.

(** *** Executions *)

(** The atomic steps of the package: the exported methods called by the
    consumer and by [main], and the steps of the goroutines. *)
Inductive event :=
  | EvStart (partition now : Z)
  | EvAddMessage (msg : RawKafkaMessage.t) (now : Z)
  | EvFlushAll (order : list string)
  | EvPark (a : nat)
  | EvRecv (a : nat)
  | EvTick (a : nat)
  | EvOnTick (a : nat) (now : Z)
  | EvOnFlush (a : nat) (now : Z)
  | EvHandoff (a : nat) (err : error) (now : Z).

Definition step (s : World) (e : event) : World :=
  match e with
  | EvStart p now => Manager_Start p now s
  | EvAddMessage msg now => Manager_AddMessage msg now s
  | EvFlushAll order => Manager_FlushAllWindows order s
  | EvPark a => flusher_park a s
  | EvRecv a => flusher_recv a s
  | EvTick a => flusher_tick a s
  | EvOnTick a now => flusher_on_tick a now s
  | EvOnFlush a now => flusher_on_flush a now s
  | EvHandoff a err now => handoff_finish a err now s
  end.

Definition run (evs : list event) (s : World) : World := foldl step s evs.

(** The states the package reaches under the configuration [c] are the
    [run evs (NewManager c)]. *)

(** ** Vocabulary of the statements *)

(** What one step may do to the window [w] at address [a] in state [s]:
    nothing, close it, append a message to it, or both; the last two only
    to the window the registry holds for its key. *)
Inductive change (s : World) (a : nat) (w : Window) : Window → Prop :=
  | change_none : change s a w w
  | change_close now :
      IsClosed w = false → change s a w (mark_closed now w)
  | change_add msg :
      windows s !! key_of w = Some a → change s a w (Window_AddMessage w msg)
  | change_add_close msg now :
      windows s !! key_of w = Some a → IsClosed (Window_AddMessage w msg) = false →
      change s a w (mark_closed now (Window_AddMessage w msg)).

(** [w'] is a later state of the object [w]: same identity, messages only
    appended, the closed flag only raised. *)
Definition evolves (w w' : Window) : Prop :=
  ID w' = ID w ∧ Topic w' = Topic w ∧ Partition w' = Partition w
  ∧ StartTime w' = StartTime w ∧ Context w' = Context w
  ∧ (IsClosed w = true → IsClosed w' = true)
  ∧ Messages w `prefix_of` Messages w'.

(** The hand-off of the window at [a] is over. *)
Definition retired (a : nat) (s : World) : Prop :=
  a ∈ handed s ∧ a ∉ handoffs s.

(** Consecutive calls of [AddMessage], each with the message and the value
    of the clock. *)
Definition ingest (msgs : list (RawKafkaMessage.t * Z)) : list event :=
  (λ mn, EvAddMessage mn.1 mn.2) <$> msgs.

(** The messages of one lane. *)
Definition on_lane (topic : string) (partition : Z) (msgs : list (RawKafkaMessage.t * Z))
    : Prop :=
  ∀ mn, mn ∈ msgs →
    RawKafkaMessage.Topic mn.1 = topic ∧ RawKafkaMessage.Partition mn.1 = partition.

(** The sends that were not dropped. *)
Definition accepted (os : list (string * send_outcome)) : nat :=
  length (filter (λ ko, ko.2 ≠ Dropped) os).

(** What the channel can take without dropping: one send per blocked
    receiver, and one more when its slot is free. *)
Definition flush_capacity (s : World) : nat :=
  (length (recvq s) + (if flushTrigger s then 0 else 1))%nat.

(** The state without its log. *)
Definition unlog (s : World) : World :=
  {| windows := windows s; cfg := cfg s; flushTrigger := flushTrigger s;
     heap := heap s; flushers := flushers s; recvq := recvq s;
     handoffs := handoffs s; handed := handed s; logs := [] |}.

(** The same step, had [ProcessWindow] returned [nil]. *)
Definition forget_err (e : event) : event :=
  match e with
  | EvHandoff a _ now => EvHandoff a None now
  | _ => e
  end.

(** ** Sample data *)

(** The double quote. *)
Definition dq : string := String "034"%char EmptyString.

(** The payload [{"a":1,"b":2}]. *)
Definition payload_ab : string :=
  "{" +:+ dq +:+ "a" +:+ dq +:+ ":1," +:+ dq +:+ "b" +:+ dq +:+ ":2}".

(** A decoder that agrees with [json.Unmarshal] on [payload_ab], which it
    decodes into the map with the entries [a: 1] and [b: 2], and on the
    payloads that are not JSON objects used below; its values are kept as
    [%v] prints them. *)
Definition sample_Unmarshal (v : string) : option (gmap string string) :=
  if decide (v = payload_ab) then Some {[ "a" := "1"; "b" := "2" ]}%string else None.

(** Two iteration orders of a map: one, and its reverse. *)
Definition order_fwd : range_order string := λ _ data, map_to_list data.
Definition order_rev : range_order string := λ _ data, reverse (map_to_list data).

Definition sample_msg (offset : Z) (value : string) : RawKafkaMessage.t :=
  {| RawKafkaMessage.Topic := "orders"; RawKafkaMessage.Partition := 0;
     RawKafkaMessage.Offset := offset; RawKafkaMessage.Key := "";
     RawKafkaMessage.Value := value; RawKafkaMessage.Timestamp := 1000 + offset |}.

(** A window holding the single message [payload_ab]. *)
Definition window_ab : Window :=
  Window_AddMessage (NewWindow "orders" 0 1000 "order events") (sample_msg 0 payload_ab).

(** A stream closed after 3 messages or one hour, as in the scenario of
    the testable properties, and one closed after every message. *)
Definition cfg3 : config.KafkaTopicConfig :=
  {| config.Name := "orders"; config.Context := "order events";
     config.WindowDurationSeconds := 3600; config.WindowMaxMessages := 3 |}.

Definition cfg1 : config.KafkaTopicConfig :=
  {| config.Name := "orders"; config.Context := "order events";
     config.WindowDurationSeconds := 3600; config.WindowMaxMessages := 1 |}.

Definition e1 : RawKafkaMessage.t := sample_msg 1 "one".
Definition e2 : RawKafkaMessage.t := sample_msg 2 "two".
Definition e3 : RawKafkaMessage.t := sample_msg 3 "three".
Definition e4 : RawKafkaMessage.t := sample_msg 4 "four".

(** A message of the same topic on partition 1. *)
Definition e_p1 : RawKafkaMessage.t :=
  {| RawKafkaMessage.Topic := "orders"; RawKafkaMessage.Partition := 1;
     RawKafkaMessage.Offset := 0; RawKafkaMessage.Key := "";
     RawKafkaMessage.Value := "other lane"; RawKafkaMessage.Timestamp := 1500 |}.

(** Two open windows, of partitions 0 and 1, whose scheduler goroutines
    have both just taken a tick and wait for [m.mu]; nothing is buffered in
    [flushTrigger]. *)
Definition two_lanes : World :=
  run [EvStart 0 1000; EvAddMessage e_p1 1500; EvPark 0; EvPark 1; EvTick 0; EvTick 1]
    (NewManager cfg3).

(** One message closes the window at once; afterwards the ticker of its
    scheduler goroutine fires twice, an hour and two hours later. *)
Definition after_two_ticks : World :=
  run [EvAddMessage e1 2000; EvPark 0;
       EvTick 0; EvOnTick 0 3600000002000; EvPark 0;
       EvTick 0; EvOnTick 0 7200000002000]
    (NewManager cfg1).

(** The manager of [cfg3] after [Start(0)]: one open, empty window. *)
Definition started : World := run [EvStart 0 1000] (NewManager cfg3).

Definition window0 : Window := NewWindow "orders" 0 1000 "order events".

(** The manager of [cfg3] after the three messages that reach the
    threshold, their hand-off still pending. *)
Definition three_in : list (RawKafkaMessage.t * Z) := [(e1, 2001); (e2, 2002); (e3, 2003)].
Definition at_threshold : World := run (ingest three_in) (NewManager cfg3).

(** The manager of [cfg1] after one message: its window is closed and the
    hand-off of that window is pending. *)
Definition handing_off : World := run [EvAddMessage e1 2000] (NewManager cfg1).

(** Stands for [Format(time.RFC3339)] in the samples, where the way a
    time is printed plays no role. *)
Definition sample_time_format : Z → string := fmt_d.

Definition sample_summary (order : range_order string) (w : Window)
    : option (string * error) :=
  Window_ToContextString string sample_Unmarshal id sample_time_format order w.

(** ** The callers of the window package *)

(** A Go result [(value, error)]: the value when the error is nil, the
    text of the error otherwise. *)
Inductive result (A : Type) :=
  | Ok (a : A)
  | Err (e : string).
Arguments Ok {A} a.
Arguments Err {A} e.

(** [window.EmbeddedWindow]; [vector] stands for [[]float32]. *)
Module EmbeddedWindow.
Record t (vector : Type) := {
  WindowID : string;
  Topic : string;
  Partition : Z;
  StartTime : Z;
  EndTime : Z;
  MessageCount : Z;
  ContextText : string;
  Embedding : vector;
  KafkaMessages : list RawKafkaMessage.t
}.
Arguments WindowID {vector} _.
Arguments Topic {vector} _.
Arguments Partition {vector} _.
Arguments StartTime {vector} _.
Arguments EndTime {vector} _.
Arguments MessageCount {vector} _.
Arguments ContextText {vector} _.
Arguments Embedding {vector} _.
Arguments KafkaMessages {vector} _.
End EmbeddedWindow.

(** *** package api: [buildRAGPrompt] and [handleQuery] *)

Section Api.
Variable vector : Type.

(** The four writes that open the prompt. *)
Definition rag_preamble : list string :=
  [ "You are an AI assistant specialized in analyzing Kafka streaming data. ";
    "Use the provided data from Kafka topics to answer the user's question. ";
    "If the answer is not in the provided data, state that you don't have enough information. ";
    "Do NOT make up information." +:+ nl +:+ nl ].

Definition rag_window_header (i : nat) (w : EmbeddedWindow.t vector) : string :=
  "--- Window " +:+ fmt_d (Z.of_nat i + 1) +:+ " (Topic: " +:+ EmbeddedWindow.Topic w
    +:+ ", ID: " +:+ EmbeddedWindow.WindowID w +:+ ") ---" +:+ nl.

(** [for i, w := range contextWindows], from the index [i] on. *)
Fixpoint rag_windows (i : nat) (ws : list (EmbeddedWindow.t vector)) : list string :=
  match ws with
  | [] => []
  | w :: rest =>
      [rag_window_header i w; EmbeddedWindow.ContextText w; nl +:+ nl]
        ++ rag_windows (S i) rest
  end.

Definition rag_question (userPrompt : string) : list string :=
  [ "--------------------------" +:+ nl +:+ nl; "USER QUESTION: "; userPrompt; nl ].

(** [buildRAGPrompt] *)
Definition buildRAGPrompt (userPrompt : string)
    (contextWindows : list (EmbeddedWindow.t vector)) : string :=
  sb_String
    (rag_preamble
       ++ ["--- RELEVANT KAFKA DATA ---" +:+ nl]
       ++ (if decide (length contextWindows = 0%nat)
           then ["No relevant Kafka data found." +:+ nl]
           else rag_windows 0 contextWindows)
       ++ rag_question userPrompt).

(** What the handler reads of the request, and what it writes back:
    [http.Error] writes a plain text, [writeJSONResponse] a
    [QueryResponse] with its [Answer] and [Error]. *)
Record Request := { Method : string; Body : string }.

Inductive ResponseBody :=
  | PlainText (msg : string)
  | QueryResponse (Answer Error : string).

Record Response := { StatusCode : Z; ResponseOf : ResponseBody }.

(** The calls the handler makes to its collaborators. *)
Inductive service_call :=
  | CallGetEmbedding (text : string)
  | CallSearchSimilarWindows (queryEmbedding : vector) (k : Z)
  | CallGenerateContent (prompt : string).

(** The collaborators: the JSON decoder of the body into a
    [QueryRequest] (its [Prompt], [None] on an error), and the three
    services, by what they return. *)
Variable decode_QueryRequest : string → option string.
Variable GetEmbedding : string → result vector.
Variable SearchSimilarWindows : vector → Z → result (list (EmbeddedWindow.t vector)).
Variable GenerateContent : string → result string.

(** [ragPrompt[:min(len(ragPrompt), 500)]] *)
Definition truncate500 (text : string) : string :=
  String.substring 0 (Nat.min (String.length text) 500) text.

(** [handleQuery]: the response, the calls made in order, and the lines
    logged. *)
Definition handleQuery (r : Request) : Response * list service_call * list string :=
  if negb (bool_decide (Method r = "POST")) then
    ({| StatusCode := 405; ResponseOf := PlainText "Only POST method is allowed" |}, [], [])
  else
    match decode_QueryRequest (Body r) with
    | None =>
        ({| StatusCode := 400; ResponseOf := PlainText "Invalid request body" |}, [], [])
    | Some prompt =>
        if bool_decide (prompt = "") then
          ({| StatusCode := 400; ResponseOf := PlainText "Prompt cannot be empty" |}, [], [])
        else
          let log1 := ["Received query: " +:+ prompt] in
          let calls1 := [CallGetEmbedding prompt] in
          match GetEmbedding prompt with
          | Err e =>
              ({| StatusCode := 500;
                  ResponseOf := QueryResponse "" "Failed to embed prompt" |},
               calls1,
               log1 ++ ["Error getting embedding for prompt '" +:+ prompt +:+ "': " +:+ e])
          | Ok queryEmbedding =>
              let topK := 5 in
              let calls2 := calls1 ++ [CallSearchSimilarWindows queryEmbedding topK] in
              match SearchSimilarWindows queryEmbedding topK with
              | Err e =>
                  ({| StatusCode := 500;
                      ResponseOf := QueryResponse "" "Failed to retrieve relevant context" |},
                   calls2,
                   log1 ++ ["Error searching similar windows in Elasticsearch: " +:+ e])
              | Ok similarWindows =>
                  let ragPrompt := buildRAGPrompt prompt similarWindows in
                  let log2 := log1 ++ ["Sending RAG prompt to LLM (truncated): "
                                         +:+ truncate500 ragPrompt +:+ "..."] in
                  let calls3 := calls2 ++ [CallGenerateContent ragPrompt] in
                  match GenerateContent ragPrompt with
                  | Err e =>
                      ({| StatusCode := 500;
                          ResponseOf := QueryResponse "" "Failed to generate LLM response" |},
                       calls3, log2 ++ ["Error generating LLM content: " +:+ e])
                  | Ok llmAnswer =>
                      ({| StatusCode := 200; ResponseOf := QueryResponse llmAnswer "" |},
                       calls3,
                       log2 ++ ["Successfully generated LLM answer for query: " +:+ prompt])
                  end
              end
          end
    end.
End Api.

(** *** package main: [(mp *MainProcessor) ProcessWindow] *)

Section Processor.
Variable vector : Type.
Variable JValue : Type.
Variable json_Unmarshal : string → option (gmap string JValue).
Variable fmt_v : JValue → string.
Variable format_RFC3339 : Z → string.

(** The collaborators: the embedding service and the store, by what they
    return. *)
Variable GetEmbedding : string → result vector.
Variable SaveEmbeddedWindow : EmbeddedWindow.t vector → error.

Inductive processor_call :=
  | CallEmbed (text : string)
  | CallSave (ew : EmbeddedWindow.t vector).

(** [ProcessWindow] on the window as it is when the call reads it: [None]
    when [ToContextString] panics, else the error returned, the calls made
    in order and the lines logged. The field [KafkaMessages] is left at
    its zero value. *)
Definition ProcessWindow (order : range_order JValue) (w : Window)
    : option (error * list processor_call * list string) :=
  let log0 := ["Processing window " +:+ ID w +:+ " (Topic: " +:+ Topic w
                 +:+ ", Messages: " +:+ fmt_d (MessageCount w) +:+ ")"] in
  match Window_ToContextString JValue json_Unmarshal fmt_v format_RFC3339 order w with
  | None => None
  | Some (_, Some e) =>
      Some (Some ("failed to convert window to context string: " +:+ e), [], log0)
  | Some (contextText, None) =>
      match GetEmbedding contextText with
      | Err e =>
          Some (Some ("failed to get embedding for window " +:+ ID w +:+ ": " +:+ e),
                [CallEmbed contextText], log0)
      | Ok embeddingVector =>
          let embeddedWindow :=
            {| EmbeddedWindow.WindowID := ID w;
               EmbeddedWindow.Topic := Topic w;
               EmbeddedWindow.Partition := Partition w;
               EmbeddedWindow.StartTime := StartTime w;
               EmbeddedWindow.EndTime := EndTime w;
               EmbeddedWindow.MessageCount := MessageCount w;
               EmbeddedWindow.ContextText := contextText;
               EmbeddedWindow.Embedding := embeddingVector;
               EmbeddedWindow.KafkaMessages := [] |} in
          let calls := [CallEmbed contextText; CallSave embeddedWindow] in
          match SaveEmbeddedWindow embeddedWindow with
          | Some e =>
              Some (Some ("failed to save embedded window to Elasticsearch: " +:+ e),
                    calls, log0)
          | None =>
              Some (None, calls,
                    log0 ++ ["Successfully processed and saved window " +:+ ID w
                               +:+ " to Elasticsearch."])
          end
      end
  end.
End Processor.

(** *** package vectordb: [SearchSimilarWindows] *)

Section Search.
Variable vector : Type.

(** The collaborators: [json.Marshal] of the k-NN query, the search
    request (its hits, [None] when the response has none), and
    [json.Unmarshal] of the source of a hit. *)
Variable marshal_query : vector → Z → result string.
Variable es_search : vector → Z → result (option (list string)).
Variable unmarshal_hit : string → result (EmbeddedWindow.t vector).

(** The loop over the hits: [found] and [logs] are the windows and the
    lines so far. *)
Fixpoint collect_hits (hits : list string) (found : list (EmbeddedWindow.t vector))
    (logs : list string) : list (EmbeddedWindow.t vector) * list string :=
  match hits with
  | [] => (found, logs)
  | hit :: rest =>
      match unmarshal_hit hit with
      | Err e =>
          collect_hits rest found
            (logs ++ ["Error unmarshaling embedded window from ES hit: " +:+ e])
      | Ok ew => collect_hits rest (found ++ [ew]) logs
      end
  end.

(** [SearchSimilarWindows]: what it returns, whether the search request
    was sent, and the lines logged. *)
Definition SearchSimilarWindows (indexName : string) (queryEmbedding : vector) (k : Z)
    : result (list (EmbeddedWindow.t vector)) * bool * list string :=
  match marshal_query queryEmbedding k with
  | Err e =>
      (Err ("failed to marshal k-NN query map for debug log: " +:+ e), false, [])
  | Ok debugQueryJSON =>
      let log0 := ["DEBUG: Sending ES k-NN search request to index '" +:+ indexName
                     +:+ "' with body: " +:+ debugQueryJSON] in
      match es_search queryEmbedding k with
      | Err e =>
          (Err ("failed to execute elasticsearch k-NN search: " +:+ e), true,
           log0 ++ ["ERROR: Elasticsearch search failed: " +:+ e])
      | Ok None =>
          (Ok [], true, log0 ++ ["DEBUG: No hits found for the k-NN search."])
      | Ok (Some hits) =>
          let '(found, logs) := collect_hits hits [] log0 in
          (Ok found, true,
           logs ++ ["DEBUG: Found " +:+ fmt_d (Z.of_nat (length found))
                      +:+ " similar windows."])
      end
  end.
End Search.

(** *** package kafka: [(c *Consumer) StartConsuming] *)

(** What the consumer reads of a [kafka.Message]; its [Partition] is an
    [int]. *)
Module KafkaMessage.
Record t := {
  Topic : string;
  Partition : Z;
  Offset : Z;
  Key : string;
  Value : string;
  Time : Z
}.
End KafkaMessage.

(** The conversion [int32(...)]. *)
Definition int32_wrap (z : Z) : Z := (z + 2 ^ 31) `mod` 2 ^ 32 - 2 ^ 31.

(** The [window.RawKafkaMessage] built from a fetched message. *)
Definition to_RawKafkaMessage (msg : KafkaMessage.t) : RawKafkaMessage.t :=
  {| RawKafkaMessage.Topic := KafkaMessage.Topic msg;
     RawKafkaMessage.Partition := int32_wrap (KafkaMessage.Partition msg);
     RawKafkaMessage.Offset := KafkaMessage.Offset msg;
     RawKafkaMessage.Key := KafkaMessage.Key msg;
     RawKafkaMessage.Value := KafkaMessage.Value msg;
     RawKafkaMessage.Timestamp := KafkaMessage.Time msg |}.

(** What one turn of the loop meets: the context is done; or
    [FetchMessage] fails, the context being done or not by then; or a
    message is fetched, [now] being the clock when [AddMessage] runs and
    [commit] what [CommitMessages] returns. *)
Inductive poll :=
  | PollDone
  | PollFetchError (e : string) (ctx_done : bool)
  | PollMessage (msg : KafkaMessage.t) (now : Z) (commit : error).

(** The loop of [StartConsuming] over the turns [polls], for the consumer
    of the topic [name]: the state it leaves, and whether it returned. Its
    lines go to the same log as those of the manager. *)
Fixpoint consume (name : string) (partition : Z) (polls : list poll) (s : World)
    : World * bool :=
  match polls with
  | [] => (s, false)
  | PollDone :: _ =>
      (log_Printf ("Stopping Kafka consumer for topic: " +:+ name +:+ ", partition: "
                     +:+ fmt_d partition) s, true)
  | PollFetchError e ctx_done :: rest =>
      let s1 := log_Printf ("Error fetching message from Kafka topic " +:+ name
                              +:+ ": " +:+ e) s in
      if ctx_done then (s1, true) else consume name partition rest s1
  | PollMessage msg now commit :: rest =>
      let s1 := Manager_AddMessage (to_RawKafkaMessage msg) now s in
      let s2 := match commit with
                | Some e =>
                    log_Printf ("Error committing offset for topic "
                                  +:+ KafkaMessage.Topic msg +:+ ", partition "
                                  +:+ fmt_d (KafkaMessage.Partition msg) +:+ ", offset "
                                  +:+ fmt_d (KafkaMessage.Offset msg) +:+ ": " +:+ e) s1
                | None => s1
                end in
      consume name partition rest s2
  end.

Definition StartConsuming (name : string) (partition : Z) (polls : list poll) (s : World)
    : World * bool :=
  consume name partition polls
    (log_Printf ("Starting Kafka consumer for topic: " +:+ name +:+ ", partition: "
                   +:+ fmt_d partition) s).

(** The messages that reach the manager: those fetched before the loop
    returns. *)
Fixpoint delivered (polls : list poll) : list (RawKafkaMessage.t * Z) :=
  match polls with
  | [] => []
  | PollDone :: _ => []
  | PollFetchError _ ctx_done :: rest => if ctx_done then [] else delivered rest
  | PollMessage msg now _ :: rest => (to_RawKafkaMessage msg, now) :: delivered rest
  end.

(** ** Vocabulary of the further properties *)

(** The messages passed to [AddMessage] in a run, in the order of the
    calls. *)
Definition ingested (evs : list event) : list RawKafkaMessage.t :=
  omap (λ e, match e with EvAddMessage msg _ => Some msg | _ => None end) evs.

(** The messages held by all the windows ever allocated. *)
Definition all_messages (s : World) : list RawKafkaMessage.t :=
  concat (Messages <$> heap s).

(** The messages of the window at address [a], none when there is no such
    window yet. *)
Definition held (s : World) (a : nat) : list RawKafkaMessage.t :=
  match heap s !! a with Some w => Messages w | None => [] end.

(** The registry key of the lane of a message, as [AddMessage] computes it. *)
Definition msg_key (msg : RawKafkaMessage.t) : string :=
  window_key (RawKafkaMessage.Topic msg) (RawKafkaMessage.Partition msg).

(** What [NewWindow], [Window.AddMessage] and [closeWindow] keep true of a
    window made under the configuration [c]: its identifier is built from
    its topic, partition and start time, its context is the configured one,
    its messages are those of its lane, and while it is open its end time
    is the timestamp of its last message. *)
Definition window_ok (c : config.KafkaTopicConfig) (w : Window) : Prop :=
  ID w = Topic w +:+ "_" +:+ fmt_d (Partition w) +:+ "_" +:+ fmt_d (StartTime w)
  ∧ Context w = config.Context c
  ∧ (∀ msg, msg ∈ Messages w → msg_key msg = key_of w)
  ∧ (IsClosed w = false → ∀ msg, last (Messages w) = Some msg →
     EndTime w = RawKafkaMessage.Timestamp msg).

(** No underscore occurs in the string. *)
Fixpoint no_underscore (s : string) : Prop :=
  match s with
  | EmptyString => True
  | String ch rest => ch ≠ "_"%char ∧ no_underscore rest
  end.

(** Two results of a service agree up to the text of the error. *)
Definition same_outcome {A} (r1 r2 : result A) : Prop :=
  match r1, r2 with
  | Ok a1, Ok a2 => a1 = a2
  | Err _, Err _ => True
  | _, _ => False
  end.

(** The value of a result, if it is not an error. *)
Definition decoded {A} (r : result A) : option A :=
  match r with Ok a => Some a | Err _ => None end.

(** The goroutines that took a flush request straight from the sender, in
    the order of the sends. *)
Definition receivers (os : list (string * send_outcome)) : list nat :=
  omap (λ ko, match ko.2 with Delivered r => Some r | _ => None end) os.

(** What every reachable state satisfies of the goroutines: the receive
    queue of [flushTrigger] holds the goroutines blocked in [select], each
    once, and a goroutine that has returned leaves its window closed. *)
Record FlusherInv (s : World) : Prop := {
  finv_nodup : NoDup (recvq s);
  finv_parked : ∀ a, a ∈ recvq s ↔ flushers s !! a = Some FParked;
  finv_exited : ∀ a, flushers s !! a = Some FExited →
                  ∃ w, heap s !! a = Some w ∧ IsClosed w = true
}.

(** ** Sample data of the further properties *)

(** The manager of [cfg3] after one message on a key it did not hold, and
    the window that message opened. *)
Definition one_in : World := run [EvAddMessage e1 2001] (NewManager cfg3).

Definition window1 : Window :=
  Window_AddMessage (NewWindow "orders" 0 1001 "order events") e1.

(** The manager of [cfg3] after [Start(0)], the goroutine of its window
    having taken a tick, or being blocked in [select]. *)
Definition ticked : World := run [EvStart 0 1000; EvTick 0] (NewManager cfg3).
Definition parked : World := run [EvStart 0 1000; EvPark 0] (NewManager cfg3).

(** Embeddings are lists of integers in the samples. *)
Definition sample_vector : Type := list Z.

Definition sample_doc : EmbeddedWindow.t sample_vector :=
  {| EmbeddedWindow.WindowID := "orders_0_1000"; EmbeddedWindow.Topic := "orders";
     EmbeddedWindow.Partition := 0; EmbeddedWindow.StartTime := 1000;
     EmbeddedWindow.EndTime := 1003; EmbeddedWindow.MessageCount := 3;
     EmbeddedWindow.ContextText := "three orders"; EmbeddedWindow.Embedding := [1; 2];
     EmbeddedWindow.KafkaMessages := [] |}.

(** Services that succeed, an embedding service that fails with a given
    text, and a store that accepts every document. *)
Definition sample_decode (body : string) : option string := Some body.
Definition sample_embed (text : string) : result sample_vector :=
  Ok [Z.of_nat (String.length text)].
Definition failing_embed (e : string) (text : string) : result sample_vector := Err e.
Definition sample_search (v : sample_vector) (k : Z)
    : result (list (EmbeddedWindow.t sample_vector)) := Ok [sample_doc].
Definition sample_generate (prompt : string) : result string := Ok "3 orders".
Definition sample_save (ew : EmbeddedWindow.t sample_vector) : error := None.

Definition post_request : Request := {| Method := "POST"; Body := "how many orders?" |}.
Definition get_request : Request := {| Method := "GET"; Body := "how many orders?" |}.

(** A search answered by two hits, of which the second does not decode. *)
Definition sample_marshal (v : sample_vector) (k : Z) : result string := Ok "{}".
Definition sample_es_search (v : sample_vector) (k : Z) : result (option (list string)) :=
  Ok (Some ["hit"; "garbage"]).
Definition sample_unmarshal_hit (hit : string) : result (EmbeddedWindow.t sample_vector) :=
  if decide (hit = "hit") then Ok sample_doc else Err "unexpected end of JSON input".

(** * Properties of the summary *)

Section SummaryFacts.
Variable JValue : Type.
Variable json_Unmarshal : string → option (gmap string JValue).
Variable fmt_v : JValue → string.
Variable format_RFC3339 : Z → string.

Local Abbreviation render_message := (render_message JValue json_Unmarshal fmt_v).
Local Abbreviation summary_loop := (summary_loop JValue json_Unmarshal fmt_v).
Local Abbreviation summary_header := (summary_header format_RFC3339).
Local Abbreviation summary_writes := (summary_writes JValue json_Unmarshal fmt_v format_RFC3339).
Local Abbreviation ToContextString :=
  (Window_ToContextString JValue json_Unmarshal fmt_v format_RFC3339).
Local Abbreviation pair_line := (pair_line JValue fmt_v).
Local Abbreviation range_order := (range_order JValue).
Local Abbreviation range_valid := (range_valid JValue).
Local Abbreviation render_from := (render_from JValue json_Unmarshal fmt_v).

Lemma summary_loop_some order msgs n i sb :
  (i + n ≤ length msgs)%nat →
  summary_loop order msgs n i sb
    = Some (sb ++ render_from order i (take n (drop i msgs))).
Proof.
  revert i sb. induction n as [|n IH]; intros i sb Hlen; simpl.
  - by rewrite app_nil_r.
  - destruct (msgs !! i) as [msg|] eqn:Hi.
    + rewrite IH by lia.
      rewrite (drop_S _ _ _ Hi). simpl. by rewrite <- app_assoc.
    + apply lookup_ge_None in Hi. lia.
Qed.

Lemma summary_loop_none order msgs n i sb :
  (length msgs < i + n)%nat → (i ≤ length msgs)%nat →
  summary_loop order msgs n i sb = None.
Proof.
  revert i sb. induction n as [|n IH]; intros i sb Hlen Hi; simpl; [lia|].
  destruct (msgs !! i) as [msg|] eqn:Hm; [|done].
  apply lookup_lt_Some in Hm. apply IH; lia.
Qed.

Lemma maxSummarize_wf w :
  window_wf w →
  Z.to_nat (maxSummarizeMessages w) = (length (Messages w) `min` 10)%nat.
Proof.
  unfold window_wf, maxSummarizeMessages. intros ->.
  destruct (Z.ltb_spec (Z.of_nat (length (Messages w))) 10); lia.
Qed.

Lemma maxSummarize_lt w :
  (maxSummarizeMessages w <? MessageCount w) = (10 <? MessageCount w).
Proof.
  unfold maxSummarizeMessages.
  destruct (Z.ltb_spec (MessageCount w) 10) as [H|H].
  - rewrite Z.ltb_irrefl. symmetry. apply Z.ltb_ge. lia.
  - done.
Qed.

Lemma maxSummarize_omitted w :
  10 < MessageCount w → MessageCount w - maxSummarizeMessages w = MessageCount w - 10.
Proof.
  unfold maxSummarizeMessages. intros H.
  destruct (Z.ltb_spec (MessageCount w) 10); lia.
Qed.

(** On a window that satisfies the data-model invariant the builder
    receives the header, the rendering of the first ten messages and,
    past ten messages, the notice. *)
Lemma summary_writes_wf order w :
  window_wf w →
  summary_writes order w
    = Some (summary_header w ++ render_from order 0 (take 10 (Messages w))
            ++ (if 10 <? MessageCount w
                then [truncation_notice (MessageCount w - 10)] else [])).
Proof.
  intros Hwf. unfold summary_writes.
  rewrite summary_loop_some by (rewrite maxSummarize_wf by done; simpl; lia).
  rewrite maxSummarize_lt, maxSummarize_wf by done. rewrite drop_0.
  assert (take (length (Messages w) `min` 10) (Messages w) = take 10 (Messages w))
    as ->.
  { destruct (Nat.le_gt_cases (length (Messages w)) 10).
    - rewrite Nat.min_l by done. by rewrite !take_ge by lia.
    - by rewrite Nat.min_r by lia. }
  destruct (Z.ltb_spec 10 (MessageCount w)).
  - rewrite maxSummarize_omitted by done. by rewrite <- app_assoc.
  - by rewrite app_nil_r.
Qed.

(** No other write is mistaken for the notice: they differ from it by
    their third character. *)
Lemma notice_not_header n w : truncation_notice n ∉ summary_header w.
Proof.
  unfold summary_header, truncation_notice. intros H.
  repeat (apply elem_of_cons in H as [H|H]; [simpl in H; discriminate|]).
  by apply elem_of_nil in H.
Qed.

Lemma notice_not_rendered order n i msg : truncation_notice n ∉ render_message order i msg.
Proof.
  unfold render_message, truncation_notice.
  destruct (json_Unmarshal _) as [data|]; intros H.
  - apply elem_of_cons in H as [H|H]; [simpl in H; discriminate|].
    apply list_elem_of_fmap in H as (kv & H & _). simpl in H. discriminate.
  - apply elem_of_cons in H as [H|H]; [simpl in H; discriminate|].
    by apply elem_of_nil in H.
Qed.

Lemma notice_not_rendered_from order n i msgs :
  truncation_notice n ∉ render_from order i msgs.
Proof.
  revert i. induction msgs as [|msg rest IH]; intros i; simpl.
  - apply not_elem_of_nil.
  - rewrite elem_of_app. intros [H|H].
    + by apply notice_not_rendered in H.
    + by apply IH in H.
Qed.

Lemma render_from_perm o1 o2 i msgs :
  range_valid o1 → range_valid o2 →
  render_from o1 i msgs ≡ₚ render_from o2 i msgs.
Proof.
  intros H1 H2. revert i. induction msgs as [|msg rest IH]; intros i; simpl; [done|].
  apply Permutation_app; [|apply IH].
  unfold render_message. destruct (json_Unmarshal _) as [data|]; [|done].
  constructor. apply fmap_Permutation. by rewrite (H1 i data), (H2 i data).
Qed.

Lemma range_small_eq (o1 o2 : range_order) i data :
  range_valid o1 → range_valid o2 → (size data ≤ 1)%nat → o1 i data = o2 i data.
Proof.
  intros H1 H2 Hsz. specialize (H1 i data). specialize (H2 i data).
  assert (Hlen : (length (map_to_list data) ≤ 1)%nat)
    by by rewrite length_map_to_list.
  destruct (map_to_list data) as [|kv [|kv' l]]; simpl in Hlen; [| |lia].
  - apply Permutation_nil_r in H1, H2. by rewrite H1, H2.
  - apply Permutation_singleton_r in H1, H2. by rewrite H1, H2.
Qed.

Lemma render_from_small o1 o2 i msgs :
  range_valid o1 → range_valid o2 →
  (∀ msg data, msg ∈ msgs →
     json_Unmarshal (RawKafkaMessage.Value msg) = Some data → (size data ≤ 1)%nat) →
  render_from o1 i msgs = render_from o2 i msgs.
Proof.
  intros H1 H2. revert i. induction msgs as [|msg rest IH]; intros i Hsmall; simpl; [done|].
  rewrite IH by (intros m d Hm; apply Hsmall; by right). f_equal.
  unfold render_message.
  destruct (json_Unmarshal _) as [data|] eqn:Hdata; [|done].
  f_equal. f_equal. apply range_small_eq; [done..|].
  eapply Hsmall; [by left|done].
Qed.

(** Whether the loop panics depends on the count and on the number of
    messages only. *)
Lemma summary_writes_cases order w :
  let n := Z.to_nat (maxSummarizeMessages w) in
  if decide (n ≤ length (Messages w))%nat
  then summary_writes order w
         = Some (summary_header w ++ render_from order 0 (take n (Messages w))
                 ++ (if maxSummarizeMessages w <? MessageCount w
                     then [truncation_notice (MessageCount w - maxSummarizeMessages w)]
                     else []))
  else summary_writes order w = None.
Proof.
  intros n. unfold summary_writes. fold n. destruct (decide _) as [Hle|Hgt].
  - rewrite summary_loop_some by (simpl; lia). rewrite drop_0.
    destruct (_ <? _); [by rewrite <- app_assoc | by rewrite app_nil_r].
  - by rewrite summary_loop_none by (simpl; lia).
Qed.

Lemma maxSummarize_le w : (Z.to_nat (maxSummarizeMessages w) ≤ 10)%nat.
Proof.
  unfold maxSummarizeMessages. destruct (Z.ltb_spec (MessageCount w) 10); lia.
Qed.
End SummaryFacts.

Section SummaryClaims.
Variable JValue : Type.
Variable json_Unmarshal : string → option (gmap string JValue).
Variable fmt_v : JValue → string.
Variable format_RFC3339 : Z → string.

Local Abbreviation summary_writes' :=
  (summary_writes JValue json_Unmarshal fmt_v format_RFC3339).
Local Abbreviation ToContextString' :=
  (Window_ToContextString JValue json_Unmarshal fmt_v format_RFC3339).
Local Abbreviation render_from' := (render_from JValue json_Unmarshal fmt_v).


(** C10. [ToContextString] never returns a non-nil error, and it does
    return on every window whose count is the number of its messages. *)
Theorem ToContextString_error_nil (order : range_order JValue) (w : Window) :
  (∀ text err, ToContextString' order w = Some (text, err) → err = None)
  ∧ (window_wf w → ∃ text, ToContextString' order w = Some (text, None)).
Proof.
  split.
  - intros text err. unfold Window_ToContextString.
    destruct (decide _); [by intros [= _ <-]|].
    destruct (summary_writes' order w); simpl; [by intros [= _ <-]|done].
  - intros Hwf. unfold Window_ToContextString.
    destruct (decide _); [by eexists|].
    rewrite (summary_writes_wf _ json_Unmarshal fmt_v format_RFC3339 order w Hwf).
    by eexists.
Qed.

End SummaryClaims.

Lemma order_fwd_valid : range_valid string order_fwd.
Proof. by intros i data. Qed.

Lemma order_rev_valid : range_valid string order_rev.
Proof. intros i data. apply reverse_Permutation. Qed.

Lemma window_ab_wf : window_wf window_ab.
Proof. reflexivity. Qed.


Lemma ToContextString_error_nil_witness :
  window_wf window_ab ∧ ∃ text, sample_summary order_fwd window_ab = Some (text, None).
Proof.
  split; [exact window_ab_wf|].
  exact (proj2 (ToContextString_error_nil string sample_Unmarshal id sample_time_format
                  order_fwd window_ab) window_ab_wf).
Defined.



(** * Invariants of the manager *)

Lemma int_wrap_succ z : int_wrap (int_wrap z + 1) = int_wrap (z + 1).
Proof.
  unfold int_wrap. f_equal.
  replace ((z + 2 ^ 63) `mod` 2 ^ 64 - 2 ^ 63 + 1 + 2 ^ 63)
    with ((z + 2 ^ 63) `mod` 2 ^ 64 + 1) by lia.
  rewrite Zplus_mod_idemp_l. f_equal. lia.
Qed.

Lemma int_wrap_small z : - 2 ^ 63 ≤ z ≤ int_max → int_wrap z = z.
Proof.
  unfold int_wrap, int_max. intros H.
  rewrite Z.mod_small by lia. lia.
Qed.

(** What every reachable state satisfies: the registry points at live
    objects filed under their own key; every object has its goroutine; a
    window is closed exactly when it was handed off, which happens once;
    once its hand-off is over it is out of the registry; its count is the
    (wrapped) number of its messages. *)
Record Inv (c : config.KafkaTopicConfig) (s : World) : Prop := {
  inv_cfg : cfg s = c;
  inv_flushers : length (flushers s) = length (heap s);
  inv_registry : ∀ k a, windows s !! k = Some a →
                   ∃ w, heap s !! a = Some w ∧ key_of w = k;
  inv_handed_nodup : NoDup (handed s);
  inv_handed_live : ∀ a, a ∈ handed s → (a < length (heap s))%nat;
  inv_closed : ∀ a w, heap s !! a = Some w → (IsClosed w = true ↔ a ∈ handed s);
  inv_pending : ∀ a, a ∈ handoffs s → a ∈ handed s;
  inv_retired : ∀ a k, a ∈ handed s → a ∉ handoffs s → windows s !! k ≠ Some a;
  inv_count : ∀ a w, heap s !! a = Some w →
                MessageCount w = int_wrap (Z.of_nat (length (Messages w)))
}.

(** Steps that leave the registry, the objects and the hand-offs alone keep
    the invariant. *)
Lemma Inv_frame c s s' :
  cfg s' = cfg s → windows s' = windows s → heap s' = heap s →
  handoffs s' = handoffs s → handed s' = handed s →
  length (flushers s') = length (flushers s) →
  Inv c s → Inv c s'.
Proof.
  intros Hc Hw Hh Hp Hd Hf [].
  split; rewrite ?Hc, ?Hw, ?Hh, ?Hp, ?Hd, ?Hf; done.
Qed.

Lemma Inv_init c : Inv c (NewManager c).
Proof.
  split; simpl; try done.
  - constructor.
  - intros a Ha. by apply elem_of_nil in Ha.
Qed.

Lemma Inv_log c line s : Inv c s → Inv c (log_Printf line s).
Proof. by apply Inv_frame. Qed.

Lemma Inv_set_flusher c a st s : Inv c s → Inv c (set_flusher a st s).
Proof. apply Inv_frame; try done. simpl. by rewrite length_insert. Qed.

Lemma Inv_set_recvq c f s : Inv c s → Inv c (set_recvq f s).
Proof. by apply Inv_frame. Qed.

Lemma Inv_set_flushTrigger c b s : Inv c s → Inv c (set_flushTrigger b s).
Proof. by apply Inv_frame. Qed.

Lemma key_of_mark_closed now w : key_of (mark_closed now w) = key_of w.
Proof. done. Qed.

Lemma Inv_closeWindow c a now s : Inv c s → Inv c (Manager_closeWindow a now s).
Proof.
  intros HI. unfold Manager_closeWindow.
  destruct (heap s !! a) as [w|] eqn:Hw; [|done].
  destruct (IsClosed w) eqn:Hopen; [done|].
  pose proof (lookup_lt_Some _ _ _ Hw) as Hlt.
  assert (Hnew : a ∉ handed s).
  { intros Hin. apply (inv_closed _ _ HI _ _ Hw) in Hin. congruence. }
  destruct HI as [Hcfg Hfl Hreg Hnd Hlive Hcl Hpend Hret Hcnt].
  split; simpl; try done.
  - by rewrite length_insert.
  - intros k b Hk. destruct (Hreg k b Hk) as (wb & Hb & Hkey).
    destruct (decide (b = a)) as [->|Hne].
    + rewrite list_lookup_insert_eq by done. eexists. split; [done|].
      rewrite key_of_mark_closed. congruence.
    + rewrite list_lookup_insert_ne by done. eauto.
  - apply NoDup_app. split; [done|]. split.
    + intros x Hx Hx'. apply list_elem_of_singleton in Hx'. by subst.
    + apply NoDup_singleton.
  - intros b. rewrite length_insert, elem_of_app, list_elem_of_singleton.
    intros [Hb| ->]; [by apply Hlive | done].
  - intros b wb. destruct (decide (b = a)) as [->|Hne].
    + rewrite list_lookup_insert_eq by done. intros [= <-]. simpl.
      split; [|done]. intros _. apply elem_of_app. right. by apply list_elem_of_singleton.
    + rewrite list_lookup_insert_ne by done. intros Hb.
      rewrite (Hcl b wb Hb), elem_of_app, list_elem_of_singleton.
      split; [by left | by intros [?|?]].
  - intros b. rewrite !elem_of_app. intros [Hb|Hb]; [left; by apply Hpend | by right].
  - intros b k. rewrite !elem_of_app, !list_elem_of_singleton. intros Hb Hnb.
    apply Hret.
    + destruct Hb as [Hb| ->]; [done|]. exfalso. apply Hnb. by right.
    + intros Hb'. apply Hnb. by left.
  - intros b wb. destruct (decide (b = a)) as [->|Hne].
    + rewrite list_lookup_insert_eq by done. intros [= <-]. simpl. eauto.
    + rewrite list_lookup_insert_ne by done. eauto.
Qed.

Lemma Inv_install c key w s :
  key_of w = key → IsClosed w = false → Messages w = [] → MessageCount w = 0 →
  Inv c s → Inv c (install key w s).
Proof.
  intros Hkey Hopen Hmsgs Hcount [Hcfg Hfl Hreg Hnd Hlive Hcl Hpend Hret Hcnt].
  split; simpl; try done.
  - rewrite !length_app. simpl. lia.
  - intros k b. destruct (decide (key = k)) as [->|Hne].
    + rewrite lookup_insert_eq. intros [= <-]. exists w.
      by rewrite lookup_app_r, Nat.sub_diag by lia.
    + rewrite lookup_insert_ne by done. intros Hk.
      destruct (Hreg k b Hk) as (wb & Hb & Hkb). exists wb.
      by rewrite lookup_app_l by (by eapply lookup_lt_Some).
  - intros b Hb. rewrite length_app. specialize (Hlive b Hb). lia.
  - intros b wb Hb. destruct (decide (b < length (heap s))%nat) as [Hlt|Hge].
    + rewrite lookup_app_l in Hb by done. by apply Hcl.
    + rewrite lookup_app_r in Hb by lia.
      destruct (b - length (heap s))%nat eqn:Hd; simpl in Hb; [|by rewrite lookup_nil in Hb].
      injection Hb as <-. rewrite Hopen. split; [done|].
      intros Hin. specialize (Hlive b Hin). lia.
  - intros b k Hb Hnb. destruct (decide (key = k)) as [->|Hne].
    + rewrite lookup_insert_eq. intros [= <-]. specialize (Hlive _ Hb). lia.
    + rewrite lookup_insert_ne by done. by apply Hret.
  - intros b wb Hb. destruct (decide (b < length (heap s))%nat) as [Hlt|Hge].
    + rewrite lookup_app_l in Hb by done. by eapply Hcnt.
    + rewrite lookup_app_r in Hb by lia.
      destruct (b - length (heap s))%nat eqn:Hd; simpl in Hb; [|by rewrite lookup_nil in Hb].
      injection Hb as <-. by rewrite Hcount, Hmsgs.
Qed.

Lemma Inv_Start c partition now s : Inv c s → Inv c (Manager_Start partition now s).
Proof. intros HI. unfold Manager_Start. by apply Inv_install, Inv_log. Qed.

Lemma Inv_update c a w w' s :
  heap s !! a = Some w → key_of w' = key_of w → IsClosed w' = IsClosed w →
  MessageCount w' = int_wrap (Z.of_nat (length (Messages w'))) →
  Inv c s → Inv c (set_heap (λ h, <[a := w']> h) s).
Proof.
  intros Hw Hkey Hsame Hcount [Hcfg Hfl Hreg Hnd Hlive Hcl Hpend Hret Hcnt].
  pose proof (lookup_lt_Some _ _ _ Hw) as Hlt.
  split; simpl; try done.
  - by rewrite length_insert.
  - intros k b Hk. destruct (Hreg k b Hk) as (wb & Hb & Hkb).
    destruct (decide (b = a)) as [->|Hne].
    + rewrite list_lookup_insert_eq by done. exists w'. split; [done|]. congruence.
    + rewrite list_lookup_insert_ne by done. eauto.
  - intros b Hb. rewrite length_insert. by apply Hlive.
  - intros b wb. destruct (decide (b = a)) as [->|Hne].
    + rewrite list_lookup_insert_eq by done. intros [= <-]. rewrite Hsame. by apply Hcl.
    + rewrite list_lookup_insert_ne by done. apply Hcl.
  - intros b wb. destruct (decide (b = a)) as [->|Hne].
    + rewrite list_lookup_insert_eq by done. by intros [= <-].
    + rewrite list_lookup_insert_ne by done. apply Hcnt.
Qed.

Lemma count_AddMessage w msg :
  MessageCount w = int_wrap (Z.of_nat (length (Messages w))) →
  MessageCount (Window_AddMessage w msg)
    = int_wrap (Z.of_nat (length (Messages (Window_AddMessage w msg)))).
Proof.
  intros Hc. simpl. rewrite Hc, int_wrap_succ, length_app. simpl. f_equal. lia.
Qed.

Lemma Inv_AddMessage c msg now s : Inv c s → Inv c (Manager_AddMessage msg now s).
Proof.
  intros HI. unfold Manager_AddMessage.
  set (key := window_key _ _).
  assert (Hgo : ∀ a s1, Inv c s1 → cfg s1 = cfg s →
    Inv c match heap s1 !! a with
          | None => s1
          | Some w =>
              let w' := Window_AddMessage w msg in
              let s2 := set_heap (λ h, <[a := w']> h) s1 in
              if (0 <? config.WindowMaxMessages (cfg s))
                 && (config.WindowMaxMessages (cfg s) <=? MessageCount w')
              then Manager_closeWindow a now
                     (log_Printf ("Window for " +:+ config.Name (cfg s) +:+ "/"
                        +:+ fmt_d (Partition w') +:+ " reached max messages ("
                        +:+ fmt_d (MessageCount w') +:+ "). Closing.") s2)
              else s2
          end).
  { intros a s1 HI1 _. destruct (heap s1 !! a) as [w|] eqn:Hw; [|done].
    assert (Inv c (set_heap (λ h, <[a := Window_AddMessage w msg]> h) s1)) as HI2.
    { eapply Inv_update; [done..| |done].
      apply count_AddMessage. by eapply inv_count. }
    cbv zeta. destruct (_ && _); [|done].
    by apply Inv_closeWindow, Inv_log. }
  destruct (windows s !! key) as [a|] eqn:Hk.
  - by apply Hgo.
  - apply Hgo; [|done]. by apply Inv_install, Inv_log.
Qed.

Lemma Inv_delete c key s : Inv c s → Inv c (set_windows (delete key) s).
Proof.
  intros [Hcfg Hfl Hreg Hnd Hlive Hcl Hpend Hret Hcnt].
  split; simpl; try done.
  - intros k b Hk. apply lookup_delete_Some in Hk as [_ Hk]. eauto.
  - intros b k Hb Hnb Hk. apply lookup_delete_Some in Hk as [_ Hk]. by eapply Hret.
Qed.

Lemma Inv_retire c a s :
  (∀ k, windows s !! k ≠ Some a) →
  Inv c s → Inv c (set_handoffs (λ l, filter (λ b, b ≠ a) l) s).
Proof.
  intros Hout [Hcfg Hfl Hreg Hnd Hlive Hcl Hpend Hret Hcnt].
  split; simpl; try done.
  - intros b Hb. apply list_elem_of_filter in Hb as [_ Hb]. by apply Hpend.
  - intros b k Hb Hnb. destruct (decide (b = a)) as [->|Hne]; [apply Hout|].
    apply Hret; [done|]. intros Hin. apply Hnb. by apply list_elem_of_filter.
Qed.

(** When a hand-off ends, the window it handed off is out of the registry. *)
Lemma handoff_finish_unregisters c a err now s k :
  Inv c s → a ∈ handoffs s → windows (handoff_finish a err now s) !! k ≠ Some a.
Proof.
  intros HI Ha. unfold handoff_finish. rewrite decide_True by done.
  pose proof (inv_handed_live _ _ HI a (inv_pending _ _ HI a Ha)) as Hlt.
  destruct (lookup_lt_is_Some_2 _ _ Hlt) as [w Hw]. rewrite Hw. simpl.
  assert (Hheap : heap match err with
                       | Some e => log_Printf ("Error processing window " +:+ ID w
                                                 +:+ ": " +:+ e) s
                       | None => s
                       end = heap s) by by destruct err.
  assert (Hwin : windows match err with
                         | Some e => log_Printf ("Error processing window " +:+ ID w
                                                   +:+ ": " +:+ e) s
                         | None => s
                         end = windows s) by by destruct err.
  rewrite Hheap, Hwin.
  destruct (decide (key_of w = k)) as [<-|Hne].
  - rewrite lookup_insert_eq. intros [= Heq]. lia.
  - rewrite lookup_insert_ne, lookup_delete_ne by done. intros Hk.
    destruct (inv_registry _ _ HI _ _ Hk) as (w' & Hw' & Hkey). congruence.
Qed.

Lemma Inv_handoff_finish c a err now s : Inv c s → Inv c (handoff_finish a err now s).
Proof.
  intros HI. pose proof (handoff_finish_unregisters c a err now s) as Hout.
  unfold handoff_finish in *. destruct (decide (a ∈ handoffs s)) as [Ha|]; [|done].
  destruct (heap s !! a) as [w|] eqn:Hw; [|done].
  apply Inv_retire; [by intros k; apply Hout|].
  apply Inv_install; [done..|]. apply Inv_delete.
  destruct err; [by apply Inv_log | done].
Qed.

Lemma Inv_flusher_park c a s : Inv c s → Inv c (flusher_park a s).
Proof.
  intros HI. unfold flusher_park. destruct (_ && _); [|done].
  by apply Inv_set_recvq, Inv_set_flusher.
Qed.

Lemma Inv_flusher_recv c a s : Inv c s → Inv c (flusher_recv a s).
Proof.
  intros HI. unfold flusher_recv. destruct (_ && _); [|done].
  by apply Inv_set_flushTrigger, Inv_set_flusher.
Qed.

Lemma Inv_flusher_tick c a s : Inv c s → Inv c (flusher_tick a s).
Proof.
  intros HI. unfold flusher_tick. destruct (_ || _); [|done].
  by apply Inv_set_recvq, Inv_set_flusher.
Qed.

Lemma Inv_flusher_on_tick c a now s : Inv c s → Inv c (flusher_on_tick a now s).
Proof.
  intros HI. unfold flusher_on_tick. destruct (flusher_is _ _ _); [|done].
  destruct (heap s !! a) as [w|]; [|done].
  destruct (_ && _).
  - by apply Inv_set_flusher, Inv_closeWindow, Inv_log.
  - by apply Inv_set_flusher.
Qed.

Lemma Inv_flusher_on_flush c a now s : Inv c s → Inv c (flusher_on_flush a now s).
Proof.
  intros HI. unfold flusher_on_flush. destruct (flusher_is _ _ _); [|done].
  destruct (heap s !! a) as [w|]; [|done].
  apply Inv_set_flusher. destruct (negb _); [|done].
  by apply Inv_closeWindow, Inv_log.
Qed.

(** A send touches the channel and the goroutines only. *)
Lemma flush_send_frame s :
  cfg (flush_send s).1 = cfg s ∧ windows (flush_send s).1 = windows s
  ∧ heap (flush_send s).1 = heap s ∧ handoffs (flush_send s).1 = handoffs s
  ∧ handed (flush_send s).1 = handed s ∧ logs (flush_send s).1 = logs s
  ∧ length (flushers (flush_send s).1) = length (flushers s).
Proof.
  unfold flush_send. destruct (recvq s) as [|r q]; [destruct (flushTrigger s)|]; simpl;
    rewrite ?length_insert; done.
Qed.

Lemma flush_loop_frame order s :
  cfg (flush_loop order s).1 = cfg s ∧ windows (flush_loop order s).1 = windows s
  ∧ heap (flush_loop order s).1 = heap s ∧ handoffs (flush_loop order s).1 = handoffs s
  ∧ handed (flush_loop order s).1 = handed s ∧ logs (flush_loop order s).1 = logs s
  ∧ length (flushers (flush_loop order s).1) = length (flushers s).
Proof.
  revert s. induction order as [|key rest IH]; intros s; simpl; [done|].
  destruct (window_open s key); [|apply IH].
  destruct (flush_send s) as [s1 o] eqn:Hsend.
  pose proof (flush_send_frame s) as Hf. rewrite Hsend in Hf. simpl in Hf.
  specialize (IH s1). destruct (flush_loop rest s1) as [s2 os]. simpl in *.
  destruct Hf as (? & ? & ? & ? & ? & ? & ?), IH as (? & ? & ? & ? & ? & ? & ?).
  repeat split; congruence.
Qed.

Lemma Inv_FlushAllWindows c order s : Inv c s → Inv c (Manager_FlushAllWindows order s).
Proof.
  unfold Manager_FlushAllWindows. destruct (decide _); [|done].
  destruct (flush_loop_frame order s) as (? & ? & ? & ? & ? & ? & ?).
  by apply Inv_frame.
Qed.

Lemma Inv_step c s e : Inv c s → Inv c (step s e).
Proof.
  destruct e; simpl.
  - apply Inv_Start.
  - apply Inv_AddMessage.
  - apply Inv_FlushAllWindows.
  - apply Inv_flusher_park.
  - apply Inv_flusher_recv.
  - apply Inv_flusher_tick.
  - apply Inv_flusher_on_tick.
  - apply Inv_flusher_on_flush.
  - apply Inv_handoff_finish.
Qed.

Lemma Inv_run c evs s : Inv c s → Inv c (run evs s).
Proof.
  revert s. induction evs as [|e evs IH]; intros s HI; simpl; [done|].
  by apply IH, Inv_step.
Qed.

Lemma Inv_reachable c evs : Inv c (run evs (NewManager c)).
Proof. apply Inv_run, Inv_init. Qed.

(** * Rotation *)

Lemma closeWindow_closed a w now s :
  heap s !! a = Some w → IsClosed w = true → Manager_closeWindow a now s = s.
Proof. intros Hw Hcl. unfold Manager_closeWindow. by rewrite Hw, Hcl. Qed.

Lemma closeWindow_open a w now s :
  heap s !! a = Some w → IsClosed w = false →
  heap (Manager_closeWindow a now s) = <[a := mark_closed now w]> (heap s)
  ∧ windows (Manager_closeWindow a now s) = windows s
  ∧ handoffs (Manager_closeWindow a now s) = handoffs s ++ [a]
  ∧ handed (Manager_closeWindow a now s) = handed s ++ [a]
  ∧ flushers (Manager_closeWindow a now s) = flushers s
  ∧ cfg (Manager_closeWindow a now s) = cfg s.
Proof. intros Hw Hop. unfold Manager_closeWindow. by rewrite Hw, Hop. Qed.

Lemma closeWindow_twice a now now' s :
  Manager_closeWindow a now' (Manager_closeWindow a now s) = Manager_closeWindow a now s.
Proof.
  destruct (heap s !! a) as [w|] eqn:Hw.
  - destruct (IsClosed w) eqn:Hcl.
    + rewrite (closeWindow_closed a w now s) by done.
      by apply (closeWindow_closed a w).
    + destruct (closeWindow_open a w now s Hw Hcl) as (Hh & _).
      apply (closeWindow_closed a (mark_closed now w)); [|done].
      rewrite Hh. apply list_lookup_insert_eq. by eapply lookup_lt_Some.
  - unfold Manager_closeWindow. by rewrite !Hw.
Qed.

(** C4. [closeWindow] on a window already closed changes nothing, so a
    second trigger on the same instance is a no-op whatever the first was;
    and in every state the package reaches, whichever of the timer, the
    threshold and the flush ran in whichever order, the windows handed to
    the processor are exactly the closed ones, each handed off once. *)
Theorem closeWindow_idempotent (c : config.KafkaTopicConfig) (evs : list event) :
  let s := run evs (NewManager c) in
  (∀ a now now',
     Manager_closeWindow a now' (Manager_closeWindow a now s) = Manager_closeWindow a now s)
  ∧ (∀ a w now, heap s !! a = Some w → IsClosed w = true → Manager_closeWindow a now s = s)
  ∧ NoDup (handed s)
  ∧ (∀ a w, heap s !! a = Some w → (IsClosed w = true ↔ a ∈ handed s))
  ∧ (∀ a w now now', heap s !! a = Some w → IsClosed w = false →
       handed (Manager_closeWindow a now' (Manager_closeWindow a now s)) = handed s ++ [a]).
Proof.
  intros s. pose proof (Inv_reachable c evs) as HI. fold s in HI.
  split; [|split; [|split; [|split]]].
  - intros. apply closeWindow_twice.
  - intros a w now. apply closeWindow_closed.
  - by eapply inv_handed_nodup.
  - by eapply inv_closed.
  - intros a w now now' Hw Hop. rewrite closeWindow_twice.
    by destruct (closeWindow_open a w now s Hw Hop) as (_ & _ & _ & -> & _).
Qed.

(** ** What a step does to an object *)

Lemma closeWindow_change a0 now s a w :
  heap s !! a = Some w →
  ∃ w', heap (Manager_closeWindow a0 now s) !! a = Some w' ∧ change s a w w'.
Proof.
  intros Hw. unfold Manager_closeWindow.
  destruct (heap s !! a0) as [w0|] eqn:Hw0; [|exists w; split; [done|constructor]].
  destruct (IsClosed w0) eqn:Hcl; [exists w; split; [done|constructor]|]. simpl.
  destruct (decide (a = a0)) as [->|Hne].
  - rewrite list_lookup_insert_eq by (by eapply lookup_lt_Some).
    assert (w0 = w) as -> by congruence.
    eexists. split; [done|]. by constructor.
  - rewrite list_lookup_insert_ne by done. exists w. split; [done|constructor].
Qed.

Lemma change_windows s s' a w w' :
  windows s' = windows s → change s a w w' → change s' a w w'.
Proof. intros Heq Hch. destruct Hch; constructor; by rewrite ?Heq. Qed.

Lemma AddMessage_change c msg now s a w :
  Inv c s → heap s !! a = Some w →
  ∃ w', heap (Manager_AddMessage msg now s) !! a = Some w' ∧ change s a w w'.
Proof.
  intros HI Hw. unfold Manager_AddMessage. set (key := window_key _ _).
  destruct (windows s !! key) as [a0|] eqn:Hk.
  - destruct (inv_registry _ _ HI _ _ Hk) as (w0 & Hw0 & Hkey). rewrite Hw0.
    cbv zeta. destruct (decide (a = a0)) as [->|Hne].
    + assert (w0 = w) as -> by congruence.
      assert (Hreg : windows s !! key_of w = Some a0) by by rewrite Hkey.
      destruct (_ && _).
      * unfold Manager_closeWindow. simpl.
        rewrite list_lookup_insert_eq by (by eapply lookup_lt_Some). simpl.
        destruct (IsClosed w) eqn:Hcl; simpl.
        -- rewrite list_lookup_insert_eq by (by eapply lookup_lt_Some).
           eexists. split; [done|]. by constructor.
        -- rewrite list_insert_insert_eq.
           rewrite list_lookup_insert_eq by (by eapply lookup_lt_Some).
           eexists. split; [done|]. by apply change_add_close.
      * simpl. rewrite list_lookup_insert_eq by (by eapply lookup_lt_Some).
        eexists. split; [done|]. by constructor.
    + destruct (_ && _).
      * unfold Manager_closeWindow. simpl.
        rewrite list_lookup_insert_eq by (by eapply lookup_lt_Some). simpl.
        destruct (IsClosed w0); simpl;
          rewrite ?list_insert_insert_eq, list_lookup_insert_ne by done;
          (exists w; split; [done|constructor]).
      * simpl. rewrite list_lookup_insert_ne by done.
        exists w; split; [done|constructor].
  - pose proof (lookup_lt_Some _ _ _ Hw) as Hlt. simpl.
    rewrite lookup_app_r, Nat.sub_diag by lia. simpl.
    destruct (_ && _).
    + unfold Manager_closeWindow. simpl.
      rewrite list_lookup_insert_eq by (rewrite length_app; simpl; lia). simpl.
      rewrite list_insert_insert_eq, list_lookup_insert_ne by lia.
      rewrite lookup_app_l by done. exists w; split; [done|constructor].
    + simpl. rewrite list_lookup_insert_ne by lia.
      rewrite lookup_app_l by done. exists w; split; [done|constructor].
Qed.

Lemma handoff_finish_lookup a0 err now s a w :
  heap s !! a = Some w → heap (handoff_finish a0 err now s) !! a = Some w.
Proof.
  intros Hw. unfold handoff_finish. destruct (decide _); [|done].
  destruct (heap s !! a0) as [w0|]; [|done]. simpl.
  rewrite lookup_app_l.
  - by destruct err.
  - destruct err; simpl; by eapply lookup_lt_Some.
Qed.

Lemma step_change c s e a w :
  Inv c s → heap s !! a = Some w →
  ∃ w', heap (step s e) !! a = Some w' ∧ change s a w w'.
Proof.
  intros HI Hw.
  assert (Hsame : ∀ s', heap s' = heap s →
            ∃ w', heap s' !! a = Some w' ∧ change s a w w').
  { intros s' ->. exists w. split; [done|constructor]. }
  destruct e as [p now|msg now|order|b|b|b|b now|b now|b err now]; simpl.
  - exists w. split; [|constructor].
    rewrite lookup_app_l; [done|]. by eapply lookup_lt_Some.
  - by eapply AddMessage_change.
  - apply Hsame. unfold Manager_FlushAllWindows. destruct (decide _); [|done].
    apply flush_loop_frame.
  - apply Hsame. unfold flusher_park. by destruct (_ && _).
  - apply Hsame. unfold flusher_recv. by destruct (_ && _).
  - apply Hsame. unfold flusher_tick. by destruct (_ || _).
  - unfold flusher_on_tick. destruct (flusher_is _ _ _); [|by apply Hsame].
    destruct (heap s !! b) as [wb|]; [|by apply Hsame].
    destruct (_ && _); [|by apply Hsame].
    destruct (closeWindow_change b now (log_Printf
      ("Window for " +:+ config.Name (cfg s) +:+ "/" +:+ fmt_d (Partition wb)
         +:+ " timed out (" +:+ fmt_d (config.WindowDurationSeconds (cfg s))
         +:+ " sec). Closing.") s) a w Hw) as (w' & Hw' & Hch).
    exists w'. split; [done|]. eapply change_windows; [|exact Hch]. done.
  - unfold flusher_on_flush. destruct (flusher_is _ _ _); [|by apply Hsame].
    destruct (heap s !! b) as [wb|]; [|by apply Hsame].
    destruct (negb _); [|by apply Hsame].
    destruct (closeWindow_change b now (log_Printf
      ("Window for " +:+ config.Name (cfg s) +:+ "/" +:+ fmt_d (Partition wb)
         +:+ " explicitly flushed. Closing.") s) a w Hw) as (w' & Hw' & Hch).
    exists w'. split; [done|]. eapply change_windows; [|exact Hch]. done.
  - exists w. split; [by apply handoff_finish_lookup | constructor].
Qed.

Lemma evolves_refl w : evolves w w.
Proof. by repeat split. Qed.

Lemma evolves_trans w1 w2 w3 : evolves w1 w2 → evolves w2 w3 → evolves w1 w3.
Proof.
  intros (? & ? & ? & ? & ? & ? & ?) (? & ? & ? & ? & ? & ? & ?).
  repeat split; try congruence; [auto | by etrans].
Qed.

Lemma change_evolves s a w w' : change s a w w' → evolves w w'.
Proof.
  intros []; repeat split; simpl; try done; by apply prefix_app_r.
Qed.

Lemma run_evolves c evs s a w :
  Inv c s → heap s !! a = Some w →
  ∃ w', heap (run evs s) !! a = Some w' ∧ evolves w w'.
Proof.
  revert s w. induction evs as [|e evs IH]; intros s w HI Hw; simpl.
  - exists w. split; [done | apply evolves_refl].
  - destruct (step_change c s e a w HI Hw) as (w1 & Hw1 & Hch).
    destruct (IH (step s e) w1 (Inv_step _ _ _ HI) Hw1) as (w2 & Hw2 & Hev).
    exists w2. split; [done|].
    eapply evolves_trans; [by eapply change_evolves | done].
Qed.

(** ** Hand-offs *)

Lemma handoff_finish_spec a err now s w :
  a ∈ handoffs s → heap s !! a = Some w →
  let s' := handoff_finish a err now s in
  windows s' = <[key_of w := length (heap s)]> (delete (key_of w) (windows s))
  ∧ heap s' = heap s ++ [NewWindow (Topic w) (Partition w) now (config.Context (cfg s))]
  ∧ flushers s' = flushers s ++ [FRunning]
  ∧ handoffs s' = filter (λ b, b ≠ a) (handoffs s)
  ∧ handed s' = handed s ∧ recvq s' = recvq s ∧ flushTrigger s' = flushTrigger s
  ∧ cfg s' = cfg s
  ∧ logs s' = logs s ++ match err with
                        | Some e => ["Error processing window " +:+ ID w +:+ ": " +:+ e]
                        | None => []
                        end.
Proof.
  intros Ha Hw. unfold handoff_finish. rewrite decide_True by done. rewrite Hw.
  destruct err; simpl; by rewrite ?app_nil_r.
Qed.

Lemma closeWindow_hand a now s :
  ∃ l, handed (Manager_closeWindow a now s) = handed s ++ l
       ∧ handoffs (Manager_closeWindow a now s) = handoffs s ++ l.
Proof.
  unfold Manager_closeWindow.
  destruct (heap s !! a) as [w|]; [|exists []; by rewrite !app_nil_r].
  destruct (IsClosed w); [exists []; by rewrite !app_nil_r|]. by exists [a].
Qed.

Lemma step_hand s e :
  ∃ l, handed (step s e) = handed s ++ l
       ∧ ∀ b, b ∈ handoffs (step s e) → b ∈ handoffs s ∨ b ∈ l.
Proof.
  assert (Hsame : ∀ s', handed s' = handed s → handoffs s' = handoffs s →
            ∃ l, handed s' = handed s ++ l
                 ∧ ∀ b, b ∈ handoffs s' → b ∈ handoffs s ∨ b ∈ l).
  { intros s' -> ->. exists []. rewrite app_nil_r. split; [done|]. by left. }
  assert (Hclose : ∀ a now s', handed s' = handed s → handoffs s' = handoffs s →
            ∃ l, handed (Manager_closeWindow a now s') = handed s ++ l
                 ∧ ∀ b, b ∈ handoffs (Manager_closeWindow a now s') →
                        b ∈ handoffs s ∨ b ∈ l).
  { intros a now s' Hd Hp. destruct (closeWindow_hand a now s') as (l & -> & ->).
    exists l. rewrite Hd, Hp. split; [done|]. intros b. by rewrite elem_of_app. }
  destruct e as [p now|msg now|order|b|b|b|b now|b now|b err now]; simpl.
  - by apply Hsame.
  - unfold Manager_AddMessage. destruct (windows s !! _) as [a|].
    + destruct (heap s !! a); [|by apply Hsame]. cbv zeta.
      destruct (_ && _); [by apply Hclose | by apply Hsame].
    + match goal with |- context [heap ?s1 !! ?a] => destruct (heap s1 !! a) end;
        [|by apply Hsame].
      cbv zeta. destruct (_ && _); [by apply Hclose | by apply Hsame].
  - unfold Manager_FlushAllWindows. destruct (decide _); [|by apply Hsame].
    apply Hsame; apply flush_loop_frame.
  - apply Hsame; unfold flusher_park; by destruct (_ && _).
  - apply Hsame; unfold flusher_recv; by destruct (_ && _).
  - apply Hsame; unfold flusher_tick; by destruct (_ || _).
  - unfold flusher_on_tick. destruct (flusher_is _ _ _); [|by apply Hsame].
    destruct (heap s !! b); [|by apply Hsame].
    destruct (_ && _); [|by apply Hsame].
    by apply (Hclose b now (log_Printf _ s)).
  - unfold flusher_on_flush. destruct (flusher_is _ _ _); [|by apply Hsame].
    destruct (heap s !! b); [|by apply Hsame].
    destruct (negb _); [|by apply Hsame].
    by apply (Hclose b now (log_Printf _ s)).
  - destruct (decide (b ∈ handoffs s)) as [Hb|Hb].
    + destruct (heap s !! b) as [w|] eqn:Hw.
      * destruct (handoff_finish_spec b err now s w Hb Hw)
          as (_ & _ & _ & Hp & Hd & _).
        exists []. rewrite app_nil_r. split; [done|].
        intros x. rewrite Hp. intros Hx. apply list_elem_of_filter in Hx as [_ Hx].
        by left.
      * apply Hsame; unfold handoff_finish; by rewrite decide_True, Hw by done.
    + apply Hsame; unfold handoff_finish; by rewrite decide_False by done.
Qed.

Lemma retired_step c s e a : Inv c s → retired a s → retired a (step s e).
Proof.
  intros HI [Hd Hp]. destruct (step_hand s e) as (l & Hl & Hsub).
  pose proof (inv_handed_nodup _ _ (Inv_step _ _ e HI)) as Hnd. rewrite Hl in Hnd.
  split.
  - rewrite Hl. apply elem_of_app. by left.
  - intros Hin. destruct (Hsub _ Hin) as [Hin'|Hin']; [done|].
    apply NoDup_app in Hnd as (_ & Hdisj & _). by apply (Hdisj a).
Qed.

(** C1, amended. When [closeWindow] closes an open window it returns with
    the registry unchanged, the closed window still filed under its key and
    its hand-off pending. The entry is replaced when the hand-off goroutine
    ends, whatever happened in between and whatever [ProcessWindow]
    returned: from then on the key leads to a brand-new empty open window
    with its own scheduler goroutine, and no key leads to the closed one. *)
Theorem rotation_replaces_at_handoff (c : config.KafkaTopicConfig)
    (evs : list event) (a : nat) (w : Window) (now : Z) :
  let s := run evs (NewManager c) in
  heap s !! a = Some w → IsClosed w = false →
  let s1 := Manager_closeWindow a now s in
  windows s1 = windows s
  ∧ heap s1 !! a = Some (mark_closed now w)
  ∧ a ∈ handoffs s1
  ∧ ∀ evs' err now',
      let s2 := run evs' s1 in
      a ∈ handoffs s2 →
      let s3 := handoff_finish a err now' s2 in
      let a' := length (heap s2) in
      windows s3 !! key_of w = Some a' ∧ a' ≠ a
      ∧ heap s3 !! a' = Some (NewWindow (Topic w) (Partition w) now' (config.Context c))
      ∧ flushers s3 !! a' = Some FRunning
      ∧ (a ∉ handoffs s3)
      ∧ (∀ k, windows s3 !! k ≠ Some a).
Proof.
  intros s Hw Hop s1.
  pose proof (Inv_reachable c evs) as HI. fold s in HI.
  destruct (closeWindow_open a w now s Hw Hop) as (Hh & Hwin & Hp & _).
  pose proof (lookup_lt_Some _ _ _ Hw) as Hlt.
  assert (Hw1 : heap s1 !! a = Some (mark_closed now w)).
  { unfold s1. rewrite Hh. by apply list_lookup_insert_eq. }
  split; [done|]. split; [done|]. split.
  { unfold s1. rewrite Hp. apply elem_of_app. right. by apply list_elem_of_singleton. }
  intros evs' err now' s2 Hpend s3 a'.
  assert (HI2 : Inv c s2) by by apply Inv_run, Inv_closeWindow.
  destruct (run_evolves c evs' s1 a _ (Inv_closeWindow _ a now _ HI) Hw1)
    as (w2 & Hw2 & Hid & Htopic & Hpart & _).
  fold s2 in Hw2. simpl in Htopic, Hpart.
  destruct (handoff_finish_spec a err now' s2 w2 Hpend Hw2)
    as (Hwin3 & Hheap3 & Hfl3 & Hp3 & _).
  fold s3 in Hwin3, Hheap3, Hfl3, Hp3.
  assert (Hkey : key_of w2 = key_of w) by (unfold key_of; congruence).
  pose proof (lookup_lt_Some _ _ _ Hw2) as Hlt2.
  split; [|split; [|split; [|split; [|split]]]].
  - rewrite Hwin3, Hkey. apply lookup_insert_eq.
  - unfold a'. lia.
  - rewrite Hheap3. unfold a'. rewrite lookup_app_r, Nat.sub_diag by lia. simpl.
    by rewrite Htopic, Hpart, (inv_cfg _ _ HI2).
  - rewrite Hfl3. unfold a'. rewrite <- (inv_flushers _ _ HI2).
    by rewrite lookup_app_r, Nat.sub_diag by lia.
  - rewrite Hp3. intros Hin. by apply list_elem_of_filter in Hin as [Hne _].
  - intros k. by eapply handoff_finish_unregisters.
Qed.


(** ** Ingestion up to the threshold *)

Lemma AddMessage_registered msg now s a w :
  windows s !! window_key (RawKafkaMessage.Topic msg) (RawKafkaMessage.Partition msg)
    = Some a →
  heap s !! a = Some w →
  Manager_AddMessage msg now s
    = let w' := Window_AddMessage w msg in
      let s2 := set_heap (λ h, <[a := w']> h) s in
      if (0 <? config.WindowMaxMessages (cfg s))
         && (config.WindowMaxMessages (cfg s) <=? MessageCount w')
      then Manager_closeWindow a now
             (log_Printf ("Window for " +:+ config.Name (cfg s) +:+ "/" +:+ fmt_d (Partition w')
                +:+ " reached max messages (" +:+ fmt_d (MessageCount w') +:+ "). Closing.") s2)
      else s2.
Proof. intros Hk Hw. unfold Manager_AddMessage. by rewrite Hk, Hw. Qed.

(** On a key the registry does not hold, [AddMessage] first files a new
    window under it and then goes on as if it had found it. *)
Lemma AddMessage_unregistered msg now s :
  let key := window_key (RawKafkaMessage.Topic msg) (RawKafkaMessage.Partition msg) in
  windows s !! key = None →
  Manager_AddMessage msg now s
    = Manager_AddMessage msg now
        (install key
           (NewWindow (RawKafkaMessage.Topic msg) (RawKafkaMessage.Partition msg)
              (RawKafkaMessage.Timestamp msg) (config.Context (cfg s)))
           (log_Printf ("Warning: No active window for topic "
              +:+ RawKafkaMessage.Topic msg +:+ ", partition "
              +:+ fmt_d (RawKafkaMessage.Partition msg) +:+ ". Creating new.") s)).
Proof.
  intros key Hk. unfold Manager_AddMessage at 1 2. fold key. rewrite Hk.
  simpl. by rewrite lookup_insert_eq.
Qed.

Lemma ingest_until_threshold topic partition msgs : ∀ s a w,
  on_lane topic partition msgs → msgs ≠ [] →
  windows s !! window_key topic partition = Some a →
  heap s !! a = Some w → IsClosed w = false →
  MessageCount w = Z.of_nat (length (Messages w)) →
  MessageCount w + Z.of_nat (length msgs) = config.WindowMaxMessages (cfg s) →
  config.WindowMaxMessages (cfg s) ≤ int_max →
  let s' := run (ingest msgs) s in
  ∃ w', heap s' = <[a := w']> (heap s)
    ∧ IsClosed w' = true
    ∧ Messages w' = Messages w ++ msgs.*1
    ∧ MessageCount w' = config.WindowMaxMessages (cfg s)
    ∧ Topic w' = Topic w ∧ Partition w' = Partition w
    ∧ windows s' = windows s
    ∧ handed s' = handed s ++ [a] ∧ handoffs s' = handoffs s ++ [a]
    ∧ cfg s' = cfg s ∧ flushers s' = flushers s.
Proof.
  induction msgs as [|mn rest IH]; intros s a w Hlane Hne Hk Hw Hop Hcnt Hsum Hmax;
    [done|].
  destruct (Hlane mn) as [Htopic Hpart]; [by left|].
  simpl. rewrite (AddMessage_registered mn.1 mn.2 s a w);
    [|by rewrite Htopic, Hpart|done].
  cbv zeta.
  pose proof (lookup_lt_Some _ _ _ Hw) as Hlt.
  assert (Hc1 : MessageCount (Window_AddMessage w mn.1) = MessageCount w + 1).
  { simpl. apply int_wrap_small. simpl in Hsum. unfold int_max in *. lia. }
  rewrite Hc1.
  destruct rest as [|mn' rest'].
  - simpl in Hsum.
    assert ((0 <? config.WindowMaxMessages (cfg s))
            && (config.WindowMaxMessages (cfg s) <=? MessageCount w + 1) = true) as ->.
    { apply andb_true_iff. split; [apply Z.ltb_lt | apply Z.leb_le]; lia. }
    simpl. unfold Manager_closeWindow. simpl.
    rewrite list_lookup_insert_eq by done. simpl. rewrite Hop. simpl.
    eexists. split; [by rewrite list_insert_insert_eq|]. simpl.
    repeat split; try done. simpl in Hc1. rewrite Hc1. lia.
  - assert ((0 <? config.WindowMaxMessages (cfg s))
            && (config.WindowMaxMessages (cfg s) <=? MessageCount w + 1) = false) as ->.
    { apply andb_false_iff. right. apply Z.leb_gt. simpl in Hsum. lia. }
    edestruct (IH (set_heap (λ h, <[a := Window_AddMessage w mn.1]> h) s) a
                 (Window_AddMessage w mn.1))
      as (w' & Hh & Hcl & Hm & Hc & Ht & Hp & Hwin & Hd & Hpn & Hcfg & Hfl).
    + intros x Hx. apply Hlane. by right.
    + done.
    + done.
    + simpl. by apply list_lookup_insert_eq.
    + done.
    + rewrite Hc1. simpl. rewrite length_app. simpl. lia.
    + rewrite Hc1. simpl in *. lia.
    + done.
    + exists w'. simpl in *. rewrite Hh, list_insert_insert_eq.
      repeat split; try done. by rewrite Hm, <- app_assoc.
Qed.

Lemma closeWindow_windows a now s : windows (Manager_closeWindow a now s) = windows s.
Proof. unfold Manager_closeWindow. by repeat case_match. Qed.

Lemma closeWindow_heap_cases a now s :
  heap (Manager_closeWindow a now s) = heap s
  ∨ ∃ w, heap s !! a = Some w
         ∧ heap (Manager_closeWindow a now s) = <[a := mark_closed now w]> (heap s).
Proof.
  unfold Manager_closeWindow. destruct (heap s !! a) as [w|] eqn:Hw; [|by left].
  destruct (IsClosed w); [by left|]. right. by exists w.
Qed.

(** What [AddMessage] leaves behind for a message of a registered key: the
    registry as it was, the other objects as they were, and the message at
    the end of the registered window. *)
Lemma AddMessage_registered_result msg now s a w :
  windows s !! window_key (RawKafkaMessage.Topic msg) (RawKafkaMessage.Partition msg)
    = Some a →
  heap s !! a = Some w →
  let s' := Manager_AddMessage msg now s in
  windows s' = windows s
  ∧ (∀ b, b ≠ a → heap s' !! b = heap s !! b)
  ∧ ∃ w', heap s' !! a = Some w' ∧ Messages w' = Messages w ++ [msg]
          ∧ MessageCount w' = int_wrap (MessageCount w + 1).
Proof.
  intros Hk Hw s'. unfold s'. rewrite (AddMessage_registered msg now s a w Hk Hw).
  cbv zeta. pose proof (lookup_lt_Some _ _ _ Hw) as Hlt.
  destruct (_ && _).
  - rewrite closeWindow_windows.
    destruct (closeWindow_heap_cases a now
      (log_Printf ("Window for " +:+ config.Name (cfg s) +:+ "/"
         +:+ fmt_d (Partition (Window_AddMessage w msg)) +:+ " reached max messages ("
         +:+ fmt_d (MessageCount (Window_AddMessage w msg)) +:+ "). Closing.")
         (set_heap (λ h, <[a := Window_AddMessage w msg]> h) s)))
      as [->|(w1 & Hw1 & ->)]; simpl.
    + split; [done|]. split.
      * intros b Hb. by rewrite list_lookup_insert_ne.
      * eexists. by rewrite list_lookup_insert_eq.
    + simpl in Hw1. rewrite list_lookup_insert_eq in Hw1 by done.
      injection Hw1 as <-. rewrite list_insert_insert_eq.
      split; [done|]. split.
      * intros b Hb. by rewrite list_lookup_insert_ne.
      * eexists. by rewrite list_lookup_insert_eq.
  - simpl. split; [done|]. split.
    + intros b Hb. by rewrite list_lookup_insert_ne.
    + eexists. by rewrite list_lookup_insert_eq.
Qed.

(** C3, amended. With a threshold [N > 0], ingesting exactly [N] events of
    a key the registry does not hold closes, before the last call returns,
    a window that holds those events in order with count [N], and hands it
    off. The next event of the key lands in a new window, which then holds
    it alone, when the hand-off goroutine of the closed window has ended in
    between; the closed window is then left as it was. *)
Theorem threshold_closure (c : config.KafkaTopicConfig) (evs : list event)
    (topic : string) (partition : Z) (msgs : list (RawKafkaMessage.t * Z)) :
  let s := run evs (NewManager c) in
  let N := config.WindowMaxMessages c in
  let key := window_key topic partition in
  0 < N ≤ int_max → Z.of_nat (length msgs) = N →
  on_lane topic partition msgs → windows s !! key = None →
  let s1 := run (ingest msgs) s in
  let a := length (heap s) in
  ∃ w, windows s1 !! key = Some a ∧ heap s1 !! a = Some w
    ∧ IsClosed w = true ∧ MessageCount w = N ∧ Messages w = msgs.*1
    ∧ handed s1 = handed s ++ [a]
    ∧ ∀ err now' msg now,
        RawKafkaMessage.Topic msg = topic → RawKafkaMessage.Partition msg = partition →
        let s3 := Manager_AddMessage msg now (handoff_finish a err now' s1) in
        let a' := length (heap s1) in
        windows s3 !! key = Some a' ∧ a' ≠ a ∧ heap s3 !! a = Some w
        ∧ ∃ w', heap s3 !! a' = Some w' ∧ Messages w' = [msg] ∧ MessageCount w' = 1.
Proof.
  intros s N key HN Hlen Hlane Hfresh s1 a.
  pose proof (Inv_reachable c evs) as HI. fold s in HI.
  pose proof (inv_cfg _ _ HI) as Hcfg.
  destruct msgs as [|mn rest]; [simpl in Hlen; lia|].
  destruct (Hlane mn) as [Htopic Hpart]; [by left|].
  unfold key in *. clear key. subst topic. subst partition.
  set (key := window_key (RawKafkaMessage.Topic mn.1) (RawKafkaMessage.Partition mn.1))
    in *.
  set (s0 := install key
               (NewWindow (RawKafkaMessage.Topic mn.1) (RawKafkaMessage.Partition mn.1)
                  (RawKafkaMessage.Timestamp mn.1) (config.Context (cfg s)))
               (log_Printf ("Warning: No active window for topic "
                  +:+ RawKafkaMessage.Topic mn.1 +:+ ", partition "
                  +:+ fmt_d (RawKafkaMessage.Partition mn.1) +:+ ". Creating new.") s)).
  assert (Hs1 : s1 = run (ingest (mn :: rest)) s0).
  { unfold s1. simpl. by rewrite AddMessage_unregistered. }
  destruct (ingest_until_threshold (RawKafkaMessage.Topic mn.1)
              (RawKafkaMessage.Partition mn.1) (mn :: rest) s0 a
              (NewWindow (RawKafkaMessage.Topic mn.1) (RawKafkaMessage.Partition mn.1)
                 (RawKafkaMessage.Timestamp mn.1) (config.Context (cfg s))))
    as (w & Hh & Hcl & Hm & Hc & Ht & Hp & Hwin & Hd & Hpn & Hcfg1 & Hfl);
    try done.
  { simpl. apply lookup_insert_eq. }
  { simpl. by rewrite lookup_app_r, Nat.sub_diag by lia. }
  { simpl. rewrite Hcfg. fold N. unfold N in Hlen. simpl in Hlen. lia. }
  { simpl. rewrite Hcfg. unfold N in HN. lia. }
  rewrite <- Hs1 in Hh, Hwin, Hd, Hpn, Hcfg1, Hfl. simpl in *.
  assert (Hlt : (a < length (heap s ++ [NewWindow (RawKafkaMessage.Topic mn.1)
                    (RawKafkaMessage.Partition mn.1) (RawKafkaMessage.Timestamp mn.1)
                    (config.Context (cfg s))]))%nat)
    by (rewrite length_app; simpl; unfold a; lia).
  assert (Hwa : heap s1 !! a = Some w).
  { rewrite Hh. by apply list_lookup_insert_eq. }
  exists w. split; [by rewrite Hwin, lookup_insert_eq|]. split; [done|].
  split; [done|]. split; [by rewrite Hc, Hcfg|]. split; [done|]. split; [done|].
  intros err now' msg now Hmt Hmp.
  assert (Hkw : key_of w = key) by (unfold key_of, key; congruence).
  destruct (handoff_finish_spec a err now' s1 w) as (Hwin2 & Hheap2 & _); [|done|].
  { rewrite Hpn. apply elem_of_app. right. by apply list_elem_of_singleton. }
  rewrite Hkw in Hwin2.
  destruct (AddMessage_registered_result msg now (handoff_finish a err now' s1)
              (length (heap s1))
              (NewWindow (Topic w) (Partition w) now' (config.Context (cfg s1))))
    as (Hwin3 & Hother & w' & Hw' & Hm' & Hc').
  { rewrite Hwin2, Hmt, Hmp. apply lookup_insert_eq. }
  { rewrite Hheap2. by rewrite lookup_app_r, Nat.sub_diag by lia. }
  assert (Hne : length (heap s1) ≠ a).
  { rewrite Hh, length_insert. lia. }
  split; [by rewrite Hwin3, Hwin2, lookup_insert_eq|]. split; [done|]. split.
  - rewrite Hother by done. rewrite Hheap2, lookup_app_l; [done|].
    by eapply lookup_lt_Some.
  - exists w'. split; [done|]. split; [done|]. by rewrite Hc'.
Qed.

(** * Flushing *)

Lemma flush_send_open s key : window_open (flush_send s).1 key = window_open s key.
Proof.
  unfold window_open. destruct (flush_send_frame s) as (_ & -> & -> & _). done.
Qed.

Lemma flush_loop_cons_fst key rest s :
  (flush_loop (key :: rest) s).1
  = if window_open s key then (flush_loop rest (flush_send s).1).1
    else (flush_loop rest s).1.
Proof.
  simpl. destruct (window_open s key); [|done].
  destruct (flush_send s) as [s1 o]. simpl. by destruct (flush_loop rest s1).
Qed.

Lemma flush_send_capacity s :
  match (flush_send s).2 with
  | Dropped => flush_capacity s = 0%nat ∧ flush_capacity (flush_send s).1 = 0%nat
  | _ => flush_capacity s = S (flush_capacity (flush_send s).1)
  end.
Proof.
  unfold flush_send, flush_capacity.
  destruct (recvq s) as [|r q] eqn:Hq; simpl.
  - destruct (flushTrigger s) eqn:Hft; simpl; rewrite ?Hq, ?Hft; simpl; done.
  - done.
Qed.

Lemma flush_loop_outcomes order : ∀ s,
  (flush_loop order s).2.*1 = filter (λ key, window_open s key = true) order
  ∧ accepted (flush_loop order s).2
    = (length (filter (λ key, window_open s key = true) order) `min` flush_capacity s)%nat.
Proof.
  induction order as [|key rest IH]; intros s; simpl; [done|].
  rewrite filter_cons. destruct (window_open s key) eqn:Hopen.
  - rewrite decide_True by done.
    pose proof (flush_send_capacity s) as Hcap.
    destruct (flush_send s) as [s1 o] eqn:Hsend. simpl in Hcap.
    destruct (IH s1) as [IH1 IH2].
    assert (Hsame : filter (λ key, window_open s1 key = true) rest
                    = filter (λ key, window_open s key = true) rest).
    { apply list_filter_iff. intros k.
      pose proof (flush_send_open s k) as Ho. rewrite Hsend in Ho. simpl in Ho.
      by rewrite Ho. }
    destruct (flush_loop rest s1) as [s2 os]. cbn [fst snd] in *.
    rewrite Hsame in IH1, IH2. split; [by rewrite fmap_cons, IH1|].
    unfold accepted in *. rewrite filter_cons. cbn [fst snd length].
    destruct o.
    + rewrite decide_True by done. cbn [length]. rewrite IH2. lia.
    + rewrite decide_True by done. cbn [length]. rewrite IH2. lia.
    + rewrite decide_False by (by intros []). rewrite IH2. lia.
  - rewrite decide_False by done. apply IH.
Qed.


(** C8, at the failing input: a window closed by the threshold keeps its
    scheduler goroutine. After the one message that closes the window the
    ticker fires twice, past the duration of the window; the goroutine
    finds the window closed and goes back to [select] both times, instead
    of returning. *)
Theorem flusher_survives_threshold_close :
  (IsClosed <$> heap after_two_ticks !! 0%nat) = Some true
  ∧ handed after_two_ticks = [0%nat]
  ∧ flushers after_two_ticks !! 0%nat = Some FRunning.
Proof. vm_compute. done. Qed.

(** On a tick, the goroutine of a window that is already closed does not
    return: it goes back to the top of its loop and leaves everything else
    as it was. *)
Lemma flusher_on_tick_closed a w now s :
  heap s !! a = Some w → IsClosed w = true → flushers s !! a = Some FTicked →
  flusher_on_tick a now s = set_flusher a FRunning s.
Proof.
  intros Hw Hcl Hf. unfold flusher_on_tick, flusher_is.
  rewrite bool_decide_eq_true_2 by done. by rewrite Hw, Hcl.
Qed.

Lemma set_flusher_lookup a0 st0 s a st :
  flushers s !! a = Some st →
  flushers (set_flusher a0 st0 s) !! a = Some (if decide (a = a0) then st0 else st).
Proof.
  intros Hf. simpl. destruct (decide (a = a0)) as [->|Hne].
  - apply list_lookup_insert_eq. by eapply lookup_lt_Some.
  - by rewrite list_lookup_insert_ne.
Qed.

Lemma closeWindow_flushers a now s :
  flushers (Manager_closeWindow a now s) = flushers s.
Proof. unfold Manager_closeWindow. by repeat case_match. Qed.

Lemma flush_loop_flusher order : ∀ s a st,
  flushers s !! a = Some st →
  flushers (flush_loop order s).1 !! a = Some st
  ∨ flushers (flush_loop order s).1 !! a = Some FFlushed.
Proof.
  induction order as [|key rest IH]; intros s a st Hf; [by left|].
  rewrite flush_loop_cons_fst. destruct (window_open s key); [|by apply IH].
  assert (Hsend : flushers (flush_send s).1 !! a = Some st
                  ∨ flushers (flush_send s).1 !! a = Some FFlushed).
  { unfold flush_send. destruct (recvq s) as [|r q]; [by destruct (flushTrigger s); left|].
    simpl. destruct (decide (a = r)) as [->|Hne].
    - right. apply list_lookup_insert_eq. by eapply lookup_lt_Some.
    - left. by rewrite list_lookup_insert_ne. }
  destruct Hsend as [Hs|Hs].
  - by apply IH.
  - right. by destruct (IH (flush_send s).1 a FFlushed Hs).
Qed.

(** The scheduler goroutine of a closed window returns by no step unless
    it has taken a value from [flushTrigger]. *)
Lemma closed_flusher_exits_only_on_flush c s e a w st :
  Inv c s → heap s !! a = Some w → IsClosed w = true →
  flushers s !! a = Some st → st ≠ FExited → st ≠ FFlushed →
  flushers (step s e) !! a ≠ Some FExited.
Proof.
  intros HI Hw Hcl Hf Hlive Hnf.
  pose proof (lookup_lt_Some _ _ _ Hf) as Hlt.
  assert (Hsame : ∀ s', flushers s' = flushers s → flushers s' !! a ≠ Some FExited)
    by (intros s' ->; congruence).
  assert (Hgrow : ∀ s', flushers s' = flushers s ++ [FRunning] →
            flushers s' !! a ≠ Some FExited).
  { intros s' ->. rewrite lookup_app_l by done. congruence. }
  assert (Hset : ∀ a0 st0, st0 ≠ FExited →
            flushers (set_flusher a0 st0 s) !! a ≠ Some FExited).
  { intros a0 st0 Hst0. rewrite (set_flusher_lookup a0 st0 s a st Hf).
    destruct (decide _); congruence. }
  destruct e as [p now|msg now|order|b|b|b|b now|b now|b err now]; cbn [step].
  - by apply Hgrow.
  - unfold Manager_AddMessage. destruct (windows s !! _) as [a0|].
    + destruct (heap s !! a0); [|by apply Hsame]. cbv zeta.
      destruct (_ && _); [|by apply Hsame]. apply Hsame. by rewrite closeWindow_flushers.
    + match goal with |- context [heap ?s1 !! ?a1] => destruct (heap s1 !! a1) end;
        [|by apply Hgrow].
      cbv zeta. destruct (_ && _); [|by apply Hgrow].
      apply Hgrow. by rewrite closeWindow_flushers.
  - unfold Manager_FlushAllWindows. destruct (decide _); [|by apply Hsame].
    destruct (flush_loop_flusher order s a st Hf) as [-> | ->]; congruence.
  - unfold flusher_park. destruct (_ && _); [|by apply Hsame].
    by apply (Hset b FParked).
  - unfold flusher_recv. destruct (_ && _); [|by apply Hsame].
    by apply (Hset b FFlushed).
  - unfold flusher_tick. destruct (_ || _); [|by apply Hsame].
    by apply (Hset b FTicked).
  - unfold flusher_on_tick. destruct (flusher_is _ _ _); [|by apply Hsame].
    destruct (heap s !! b) as [wb|] eqn:Hwb; [|by apply Hsame].
    destruct (negb (IsClosed wb) && _) eqn:Hcond; [|by apply (Hset b FRunning)].
    simpl. rewrite closeWindow_flushers. simpl.
    rewrite list_lookup_insert_ne; [congruence|].
    intros ->. apply andb_true_iff in Hcond as [Hopen _].
    assert (wb = w) as -> by congruence. by rewrite Hcl in Hopen.
  - unfold flusher_on_flush, flusher_is.
    destruct (bool_decide _) eqn:Hb; [|by apply Hsame].
    apply bool_decide_eq_true in Hb.
    destruct (heap s !! b) as [wb|]; [|by apply Hsame].
    assert (Hne : b ≠ a) by (intros ->; congruence).
    destruct (negb _); simpl; rewrite ?closeWindow_flushers; simpl;
      rewrite list_lookup_insert_ne by done; congruence.
  - unfold handoff_finish. destruct (decide _); [|by apply Hsame].
    destruct (heap s !! b); [|by apply Hsame]. apply Hgrow. by destruct err.
Qed.

(** * Processor errors *)

Lemma unlog_closeWindow a now s :
  unlog (Manager_closeWindow a now s) = unlog (Manager_closeWindow a now (unlog s)).
Proof. unfold Manager_closeWindow. simpl. by repeat case_match. Qed.

Lemma unlog_flush_send s : unlog (flush_send s).1 = (flush_send (unlog s)).1.
Proof.
  unfold flush_send. cbn [unlog recvq flushTrigger].
  destruct (recvq s) as [|r q]; [destruct (flushTrigger s)|]; reflexivity.
Qed.

Lemma unlog_flush_loop order : ∀ s,
  unlog (flush_loop order s).1 = unlog (flush_loop order (unlog s)).1.
Proof.
  induction order as [|key rest IH]; intros s; [done|].
  rewrite !flush_loop_cons_fst.
  change (window_open (unlog s) key) with (window_open s key).
  destruct (window_open s key); [|apply IH].
  by rewrite IH, unlog_flush_send.
Qed.

(** [closeWindow] after steps that agree but for the log. *)
Lemma unlog_closeWindow_eq a now s s' :
  unlog s = unlog s' →
  unlog (Manager_closeWindow a now s) = unlog (Manager_closeWindow a now s').
Proof.
  intros Heq. rewrite (unlog_closeWindow a now s), (unlog_closeWindow a now s').
  by rewrite Heq.
Qed.

(** No step reads the log. *)
Lemma unlog_step s e : unlog (step s e) = unlog (step (unlog s) e).
Proof.
  destruct e as [p now|msg now|order|b|b|b|b now|b now|b err now]; simpl.
  - done.
  - unfold Manager_AddMessage. simpl. destruct (windows s !! _); simpl.
    + destruct (heap s !! _); [|done]. simpl.
      destruct (_ && _); [|done]. by apply unlog_closeWindow_eq.
    + rewrite lookup_app_r, Nat.sub_diag by lia. simpl.
      destruct (_ && _); [|done]. by apply unlog_closeWindow_eq.
  - unfold Manager_FlushAllWindows.
    change (map_order order (unlog s)) with (map_order order s).
    destruct (decide _); [|done]. apply unlog_flush_loop.
  - unfold flusher_park, flusher_is. simpl. by destruct (_ && _).
  - unfold flusher_recv, flusher_is. simpl. by destruct (_ && _).
  - unfold flusher_tick, flusher_is. simpl. by destruct (_ || _).
  - unfold flusher_on_tick, flusher_is, window_duration. simpl.
    destruct (bool_decide _); [|done]. destruct (heap s !! b); [|done].
    destruct (_ && _); [|done].
    match goal with
    | |- unlog (set_flusher _ _ ?x) = unlog (set_flusher _ _ ?y) =>
        assert (unlog x = unlog y) as Heq by by apply unlog_closeWindow_eq
    end.
    unfold unlog, set_flusher, set_flushers in *. simpl in *. congruence.
  - unfold flusher_on_flush, flusher_is. simpl.
    destruct (bool_decide _); [|done]. destruct (heap s !! b); [|done].
    destruct (negb _); [|done].
    match goal with
    | |- unlog (set_flusher _ _ ?x) = unlog (set_flusher _ _ ?y) =>
        assert (unlog x = unlog y) as Heq by by apply unlog_closeWindow_eq
    end.
    unfold unlog, set_flusher, set_flushers in *. simpl in *. congruence.
  - unfold handoff_finish. simpl. destruct (decide _); [|done].
    destruct (heap s !! b); [|done]. by destruct err.
Qed.

Lemma unlog_forget_err s e : unlog (step s (forget_err e)) = unlog (step s e).
Proof.
  destruct e as [p now|msg now|order|b|b|b|b now|b now|b err now]; try done.
  simpl. unfold handoff_finish. destruct (decide _); [|done].
  destruct (heap s !! b); [|done]. by destruct err.
Qed.

Lemma unlog_run evs : ∀ s s',
  unlog s = unlog s' → unlog (run evs s) = unlog (run (forget_err <$> evs) s').
Proof.
  induction evs as [|e evs IH]; intros s s' Heq; simpl; [done|].
  apply IH. rewrite unlog_forget_err, (unlog_step s), (unlog_step s'). by rewrite Heq.
Qed.

(** C9. An error returned by [ProcessWindow] adds one line to the log and
    changes nothing else: the hand-off goroutine ends in the same state as
    after a success, with the replacement window filed under the key, and
    every run of the package, its calls of [AddMessage] and [closeWindow]
    included, goes as it would had every [ProcessWindow] succeeded. *)
Theorem processor_error_only_logged (c : config.KafkaTopicConfig) (evs : list event)
    (a : nat) (w : Window) (e : string) (now : Z) :
  let s := run evs (NewManager c) in
  a ∈ handoffs s → heap s !! a = Some w →
  let s_ok := handoff_finish a None now s in
  let s_err := handoff_finish a (Some e) now s in
  logs s_err = logs s ++ ["Error processing window " +:+ ID w +:+ ": " +:+ e]
  ∧ logs s_ok = logs s
  ∧ unlog s_err = unlog s_ok
  ∧ windows s_err !! key_of w = Some (length (heap s))
  ∧ heap s_err !! length (heap s)
    = Some (NewWindow (Topic w) (Partition w) now (config.Context c))
  ∧ (∀ evs', unlog (run evs' s_err) = unlog (run (forget_err <$> evs') s_ok))
  ∧ (∀ evs0 s0, unlog (run evs0 s0) = unlog (run (forget_err <$> evs0) s0)).
Proof.
  intros s Ha Hw s_ok s_err.
  pose proof (Inv_reachable c evs) as HI. fold s in HI.
  destruct (handoff_finish_spec a (Some e) now s w Ha Hw)
    as (Hwin & Hheap & _ & _ & _ & _ & _ & _ & Hlog).
  destruct (handoff_finish_spec a None now s w Ha Hw)
    as (_ & _ & _ & _ & _ & _ & _ & _ & Hlog').
  fold s_err in Hwin, Hheap, Hlog. fold s_ok in Hlog'.
  assert (Heq : unlog s_err = unlog s_ok).
  { unfold s_err, s_ok, handoff_finish. rewrite !decide_True by done. by rewrite Hw. }
  split; [done|]. split; [by rewrite Hlog', app_nil_r|]. split; [done|].
  split; [by rewrite Hwin, lookup_insert_eq|]. split.
  - rewrite Hheap, lookup_app_r, Nat.sub_diag by lia. simpl.
    by rewrite (inv_cfg _ _ HI).
  - split.
    + intros evs'. apply unlog_run. exact Heq.
    + intros evs0 s0. apply unlog_run. reflexivity.
Qed.

(** * The theorems at sample inputs *)

Lemma rotation_replaces_at_handoff_witness :
  heap started !! 0%nat = Some window0 ∧ IsClosed window0 = false
  ∧ windows (Manager_closeWindow 0 2000 started) = windows started.
Proof.
  split; [reflexivity|]. split; [reflexivity|].
  exact (proj1 (rotation_replaces_at_handoff cfg3 [EvStart 0 1000] 0 window0 2000
                  eq_refl eq_refl)).
Defined.


Lemma three_in_on_lane : on_lane "orders" 0 three_in.
Proof.
  intros mn Hin. unfold three_in in Hin.
  repeat (apply elem_of_cons in Hin as [->|Hin]; [by split|]).
  by apply elem_of_nil in Hin.
Qed.

Lemma threshold_closure_witness :
  (0 < config.WindowMaxMessages cfg3 ≤ int_max)
  ∧ Z.of_nat (length three_in) = config.WindowMaxMessages cfg3
  ∧ on_lane "orders" 0 three_in
  ∧ windows (NewManager cfg3) !! window_key "orders" 0 = None
  ∧ ∃ w, windows at_threshold !! window_key "orders" 0 = Some 0%nat
         ∧ heap at_threshold !! 0%nat = Some w
         ∧ IsClosed w = true ∧ MessageCount w = 3 ∧ Messages w = [e1; e2; e3].
Proof.
  assert (Hn : 0 < config.WindowMaxMessages cfg3 ≤ int_max) by (by vm_compute).
  split; [exact Hn|]. split; [reflexivity|]. split; [exact three_in_on_lane|].
  split; [reflexivity|].
  destruct (threshold_closure cfg3 [] "orders" 0 three_in Hn eq_refl three_in_on_lane eq_refl)
    as (w & Hk & Hw & Hcl & Hc & Hm & _).
  exists w. split; [exact Hk|]. split; [exact Hw|]. split; [exact Hcl|].
  split; [exact Hc | exact Hm].
Defined.

Lemma closeWindow_idempotent_witness :
  NoDup (handed at_threshold)
  ∧ ∀ a w, heap at_threshold !! a = Some w → (IsClosed w = true ↔ a ∈ handed at_threshold).
Proof.
  pose proof (closeWindow_idempotent cfg3 (ingest three_in)) as (_ & _ & Hnd & Hcl & _).
  split; [exact Hnd | exact Hcl].
Defined.

Lemma two_lanes_order : map_order ["orders_0"; "orders_1"] two_lanes.
Proof. apply (bool_decide_unpack _). by vm_compute. Qed.


Lemma handing_off_pending : 0%nat ∈ handoffs handing_off.
Proof. apply (bool_decide_unpack _). by vm_compute. Qed.

Lemma processor_error_only_logged_witness :
  0%nat ∈ handoffs handing_off
  ∧ heap handing_off !! 0%nat = Some (mark_closed 2000 (Window_AddMessage
                                       (NewWindow "orders" 0 1001 "order events") e1))
  ∧ unlog (handoff_finish 0 (Some "connection refused") 5000 handing_off)
    = unlog (handoff_finish 0 None 5000 handing_off).
Proof.
  split; [exact handing_off_pending|]. split; [reflexivity|].
  exact (proj1 (proj2 (proj2 (processor_error_only_logged cfg1 [EvAddMessage e1 2000] 0 _
                                "connection refused" 5000 handing_off_pending eq_refl)))).
Defined.

(** * Where the code departs from the specification *)

(** Counterexample to C1 as stated: [closeWindow] on the open window of [started]
    returns with the registry still leading, under the same key, to that
    window, now closed; no new window exists. *)
Lemma closeWindow_leaves_closed_window_registered :
  let s' := Manager_closeWindow 0 2000 started in
  windows started !! "orders_0" = Some 0%nat
  ∧ (IsClosed <$> heap started !! 0%nat) = Some false
  ∧ windows s' !! "orders_0" = Some 0%nat
  ∧ (IsClosed <$> heap s' !! 0%nat) = Some true
  ∧ length (heap s') = 1%nat.
Proof. by vm_compute. Qed.


(** Counterexample to C3 as stated: with the threshold 3, the fourth message
    ingested right after the third lands in the window the third one
    closed, which then counts 4; there is no other window. *)
Lemma next_event_lands_in_closed_window :
  let s := run (ingest (three_in ++ [(e4, 2004)])) (NewManager cfg3) in
  (MessageCount <$> heap at_threshold !! 0%nat) = Some 3
  ∧ (IsClosed <$> heap at_threshold !! 0%nat) = Some true
  ∧ windows s !! "orders_0" = Some 0%nat
  ∧ length (heap s) = 1%nat
  ∧ (Messages <$> heap s !! 0%nat) = Some [e1; e2; e3; e4]
  ∧ (MessageCount <$> heap s !! 0%nat) = Some 4.
Proof. by vm_compute. Qed.


(** * Further properties of the manager *)

(** ** Every message is kept, once *)

Lemma concat_insert_snoc {A} (h : list (list A)) (a : nat) (m : list A) (x : A) :
  h !! a = Some m → concat (<[a := m ++ [x]]> h) ≡ₚ concat h ++ [x].
Proof.
  revert a. induction h as [|l h IH]; intros a Ha; [done|].
  destruct a as [|a]; simpl in *.
  - injection Ha as ->. rewrite <- !app_assoc. apply Permutation_app_head.
    apply Permutation_app_comm.
  - rewrite IH by done. by rewrite app_assoc.
Qed.

Lemma concat_snoc_nil {A} (h : list (list A)) : concat (h ++ [[]]) = concat h.
Proof. rewrite concat_app. simpl. by rewrite app_nil_r. Qed.

Lemma install_heap key w s : heap (install key w s) = heap s ++ [w].
Proof. done. Qed.

Lemma Start_heap p now s :
  heap (Manager_Start p now s)
  = heap s ++ [NewWindow (config.Name (cfg s)) p now (config.Context (cfg s))].
Proof. done. Qed.

Lemma closeWindow_messages a now s :
  Messages <$> heap (Manager_closeWindow a now s) = Messages <$> heap s.
Proof.
  unfold Manager_closeWindow. destruct (heap s !! a) as [w|] eqn:Hw; [|done].
  destruct (IsClosed w); [done|]. simpl.
  rewrite list_fmap_insert. apply list_insert_id. by rewrite list_lookup_fmap, Hw.
Qed.

Lemma AddMessage_registered_messages msg now s a w :
  windows s !! msg_key msg = Some a → heap s !! a = Some w →
  Messages <$> heap (Manager_AddMessage msg now s)
  = <[a := Messages w ++ [msg]]> (Messages <$> heap s).
Proof.
  intros Hk Hw. rewrite (AddMessage_registered msg now s a w Hk Hw). cbv zeta.
  destruct (_ && _).
  - rewrite closeWindow_messages. simpl. by rewrite list_fmap_insert.
  - simpl. by rewrite list_fmap_insert.
Qed.

(** What a step does to the messages of the windows: [AddMessage] appends
    its message to one of them, possibly a new one; every other step
    appends nothing, and at most allocates an empty window. *)
Lemma step_messages c s e :
  Inv c s →
  let h := Messages <$> heap s in
  let h' := Messages <$> heap (step s e) in
  match e with
  | EvAddMessage msg _ =>
      ∃ a m h0, (h0 = h ∨ h0 = h ++ [[]]) ∧ h0 !! a = Some m
                ∧ h' = <[a := m ++ [msg]]> h0
  | _ => h' = h ∨ h' = h ++ [[]]
  end.
Proof.
  intros HI h h'. unfold h, h'. clear h h'.
  destruct e as [p now|msg now|order|b|b|b|b now|b now|b err now]; cbn [step].
  - right. by rewrite Start_heap, fmap_app.
  - destruct (windows s !! msg_key msg) as [a|] eqn:Hk.
    + destruct (inv_registry _ _ HI _ _ Hk) as (w & Hw & _).
      exists a, (Messages w), (Messages <$> heap s).
      split; [by left|]. split; [by rewrite list_lookup_fmap, Hw|].
      by apply AddMessage_registered_messages.
    + rewrite AddMessage_unregistered by done.
      exists (length (heap s)), [], ((Messages <$> heap s) ++ [[]]).
      split; [by right|]. split.
      { by rewrite lookup_app_r, length_fmap, Nat.sub_diag by (by rewrite length_fmap). }
      rewrite (AddMessage_registered_messages msg now _ (length (heap s))
                 (NewWindow (RawKafkaMessage.Topic msg) (RawKafkaMessage.Partition msg)
                    (RawKafkaMessage.Timestamp msg) (config.Context (cfg s)))).
      * by rewrite install_heap, fmap_app.
      * apply lookup_insert_eq.
      * by rewrite install_heap, lookup_app_r, Nat.sub_diag by done.
  - left. unfold Manager_FlushAllWindows. destruct (decide _); [|done].
    by destruct (flush_loop_frame order s) as (_ & _ & -> & _).
  - left. unfold flusher_park. by destruct (_ && _).
  - left. unfold flusher_recv. by destruct (_ && _).
  - left. unfold flusher_tick. by destruct (_ || _).
  - left. unfold flusher_on_tick. destruct (flusher_is _ _ _); [|done].
    destruct (heap s !! b); [|done]. destruct (_ && _); [|done].
    simpl. apply (closeWindow_messages b now (log_Printf _ s)).
  - left. unfold flusher_on_flush. destruct (flusher_is _ _ _); [|done].
    destruct (heap s !! b); [|done]. destruct (negb _); [|done].
    simpl. apply (closeWindow_messages b now (log_Printf _ s)).
  - unfold handoff_finish. destruct (decide _); [|by left].
    destruct (heap s !! b) as [w|]; [|by left]. right.
    change (heap (set_handoffs ?f ?x)) with (heap x).
    rewrite install_heap, fmap_app. by destruct err.
Qed.

Lemma all_messages_run c evs : ∀ s,
  Inv c s → all_messages (run evs s) ≡ₚ all_messages s ++ ingested evs.
Proof.
  induction evs as [|e evs IH]; intros s HI; simpl.
  - by rewrite app_nil_r.
  - rewrite IH by (by apply Inv_step). unfold all_messages.
    pose proof (step_messages c s e HI) as Hstep. cbv zeta in Hstep.
    destruct e as [p now|msg now|order|b|b|b|b now|b now|b err now];
      try (destruct Hstep as [-> | ->]; by rewrite ?concat_snoc_nil).
    destruct Hstep as (a & m & h0 & Hh0 & Ha & ->). simpl.
    rewrite concat_insert_snoc by done.
    destruct Hh0 as [-> | ->]; rewrite ?concat_snoc_nil;
      by rewrite <- app_assoc.
Qed.

(** X1. The manager neither drops nor duplicates a message: in every state
    it reaches, the messages held by the windows it ever allocated are,
    counted with multiplicity, the messages passed to [AddMessage]. *)
Theorem no_message_lost (c : config.KafkaTopicConfig) (evs : list event) :
  all_messages (run evs (NewManager c)) ≡ₚ ingested evs.
Proof. by rewrite (all_messages_run c evs _ (Inv_init c)). Qed.

(** ** The messages of a window are in the order of ingestion *)

Lemma held_lookup s a : held s a = default [] ((Messages <$> heap s) !! a).
Proof. unfold held. rewrite list_lookup_fmap. by destruct (heap s !! a). Qed.

Lemma step_held c s e a :
  Inv c s →
  ∃ d, held (step s e) a = held s a ++ d
       ∧ (d = [] ∨ ∃ msg now, e = EvAddMessage msg now ∧ d = [msg]).
Proof.
  intros HI. rewrite !held_lookup.
  pose proof (step_messages c s e HI) as Hstep. cbv zeta in Hstep.
  assert (Hgrow : ∀ h : list (list RawKafkaMessage.t),
            default [] ((h ++ [[]]) !! a) = default [] (h !! a)).
  { intros h. destruct (decide (a < length h)%nat) as [Hlt|Hge].
    - by rewrite lookup_app_l.
    - rewrite lookup_app_r by lia. rewrite (lookup_ge_None_2 h a) by lia.
      by destruct (a - length h)%nat as [|[|n]]. }
  destruct e as [p now|msg now|order|b|b|b|b now|b now|b err now];
    try (exists []; rewrite app_nil_r; split; [|by left];
         destruct Hstep as [-> | ->]; by rewrite ?Hgrow).
  destruct Hstep as (a0 & m & h0 & Hh0 & Ha0 & ->).
  assert (Hbase : default [] (h0 !! a) = default [] ((Messages <$> heap s) !! a)).
  { destruct Hh0 as [-> | ->]; by rewrite ?Hgrow. }
  rewrite <- Hbase. destruct (decide (a = a0)) as [->|Hne].
  - exists [msg]. rewrite list_lookup_insert_eq by (by eapply lookup_lt_Some).
    rewrite Ha0. split; [done|]. right. by exists msg, now.
  - exists []. rewrite list_lookup_insert_ne by done.
    rewrite app_nil_r. split; [done|by left].
Qed.

Lemma ingested_cons e evs :
  ingested (e :: evs)
  = match e with EvAddMessage msg _ => msg :: ingested evs | _ => ingested evs end.
Proof. by destruct e. Qed.

Lemma run_held c evs : ∀ s a,
  Inv c s → ∃ l, held (run evs s) a = held s a ++ l ∧ l `sublist_of` ingested evs.
Proof.
  induction evs as [|e evs IH]; intros s a HI.
  - exists []. by rewrite app_nil_r.
  - destruct (step_held c s e a HI) as (d & Hd & Hcase).
    destruct (IH (step s e) a (Inv_step _ _ e HI)) as (l & Hl & Hsub).
    exists (d ++ l). split.
    + simpl. by rewrite Hl, Hd, app_assoc.
    + rewrite ingested_cons. destruct Hcase as [->|(msg & now & -> & ->)]; simpl.
      * destruct e; by try apply sublist_cons.
      * by apply sublist_skip.
Qed.

(** X2. Within a window the messages are in the order in which
    [AddMessage] received them: in every state the manager reaches, the
    messages of each window are a subsequence of the ingested ones. *)
Theorem window_messages_in_order (c : config.KafkaTopicConfig) (evs : list event)
    (a : nat) (w : Window) :
  heap (run evs (NewManager c)) !! a = Some w →
  Messages w `sublist_of` ingested evs.
Proof.
  intros Hw. destruct (run_held c evs (NewManager c) a (Inv_init c)) as (l & Hl & Hsub).
  unfold held in Hl. rewrite Hw in Hl. simpl in Hl. by rewrite Hl.
Qed.

(** ** Keys and identifiers tell lanes and windows apart *)

Lemma string_app_assoc (s1 s2 s3 : string) : (s1 +:+ s2) +:+ s3 = s1 +:+ s2 +:+ s3.
Proof.
  induction s1 as [|ch s1 IH]; [done|].
  change (String ch ((s1 +:+ s2) +:+ s3) = String ch (s1 +:+ s2 +:+ s3)).
  by rewrite IH.
Qed.

Lemma no_underscore_pretty_N_go (x : N) (s : string) :
  no_underscore s → no_underscore (pretty_N_go x s).
Proof.
  revert s. induction (N.lt_wf_0 x) as [x _ IH]; intros s Hs.
  assert (x = 0 ∨ 0 < x)%N as [->|Hpos] by lia.
  - by rewrite pretty_N_go_0.
  - rewrite pretty_N_go_step by done. apply IH; [by apply N.div_lt|].
    split; [|done]. unfold pretty_N_char. by repeat case_match.
Qed.

Lemma no_underscore_fmt_d (z : Z) : no_underscore (fmt_d z).
Proof.
  assert (HN : ∀ x : N, no_underscore (pretty x)).
  { intros x. unfold pretty, pretty_N. case_decide; [by split|].
    by apply no_underscore_pretty_N_go. }
  destruct z as [|p|p]; unfold fmt_d, pretty, pretty_Z.
  - by split.
  - apply (HN (Npos p)).
  - split; [done|]. apply (HN (Npos p)).
Qed.

Lemma underscore_found (s d : string) : ¬ no_underscore (s +:+ "_" +:+ d).
Proof.
  induction s as [|ch s IH].
  - change (¬ no_underscore (String "_"%char d)). by intros [? _].
  - change (¬ no_underscore (String ch (s +:+ "_" +:+ d))). by intros [_ ?].
Qed.

(** A string is cut in one way only at its last underscore. *)
Lemma app_underscore_inj (s1 s2 d1 d2 : string) :
  no_underscore d1 → no_underscore d2 →
  s1 +:+ "_" +:+ d1 = s2 +:+ "_" +:+ d2 → s1 = s2 ∧ d1 = d2.
Proof.
  intros Hd1 Hd2. revert s2.
  induction s1 as [|ch1 s1 IH]; intros [|ch2 s2] Heq.
  - change (String "_"%char d1 = String "_"%char d2) in Heq. by injection Heq as ->.
  - change (String "_"%char d1 = String ch2 (s2 +:+ "_" +:+ d2)) in Heq.
    injection Heq as <- ->. by apply underscore_found in Hd1.
  - change (String ch1 (s1 +:+ "_" +:+ d1) = String "_"%char d2) in Heq.
    injection Heq as -> <-. by apply underscore_found in Hd2.
  - change (String ch1 (s1 +:+ "_" +:+ d1) = String ch2 (s2 +:+ "_" +:+ d2)) in Heq.
    injection Heq as -> Heq. by destruct (IH s2 Heq) as [-> ->].
Qed.

Lemma window_key_inj (t1 t2 : string) (p1 p2 : Z) :
  window_key t1 p1 = window_key t2 p2 → t1 = t2 ∧ p1 = p2.
Proof.
  unfold window_key. intros Heq.
  apply app_underscore_inj in Heq as [-> Hp]; try apply no_underscore_fmt_d.
  split; [done|]. by apply (inj pretty).
Qed.


(** ** What every window keeps *)

Lemma window_ok_new c topic partition start :
  window_ok c (NewWindow topic partition start (config.Context c)).
Proof.
  split; [done|]. split; [done|]. split.
  - intros msg Hin. by apply elem_of_nil in Hin.
  - done.
Qed.

Lemma window_ok_closed c now w : window_ok c w → window_ok c (mark_closed now w).
Proof. intros (Hid & Hctx & Hlane & _). by repeat split. Qed.

Lemma window_ok_add c w msg :
  msg_key msg = key_of w → window_ok c w → window_ok c (Window_AddMessage w msg).
Proof.
  intros Hkey (Hid & Hctx & Hlane & _). split; [done|]. split; [done|]. split; simpl.
  - intros m Hin. apply elem_of_app in Hin as [Hin|Hin]; [by apply Hlane|].
    apply list_elem_of_singleton in Hin as ->. done.
  - intros _ m. rewrite last_snoc. by intros [= ->].
Qed.

Lemma windows_ok_closeWindow c a now s :
  Forall (window_ok c) (heap s) → Forall (window_ok c) (heap (Manager_closeWindow a now s)).
Proof.
  intros Hok. unfold Manager_closeWindow. destruct (heap s !! a) as [w|] eqn:Hw; [|done].
  destruct (IsClosed w); [done|]. simpl. apply Forall_insert; [done|].
  apply window_ok_closed. by eapply Forall_lookup_1.
Qed.

Lemma windows_ok_install c key w s :
  window_ok c w → Forall (window_ok c) (heap s) → Forall (window_ok c) (heap (install key w s)).
Proof.
  intros Hw Hok. rewrite install_heap. apply Forall_app. split; [done|].
  by apply Forall_singleton.
Qed.

Lemma windows_ok_AddMessage c msg now s :
  Inv c s → Forall (window_ok c) (heap s) →
  Forall (window_ok c) (heap (Manager_AddMessage msg now s)).
Proof.
  assert (Hreg : ∀ s0 a w, Inv c s0 → Forall (window_ok c) (heap s0) →
            windows s0 !! msg_key msg = Some a → heap s0 !! a = Some w →
            Forall (window_ok c) (heap (Manager_AddMessage msg now s0))).
  { intros s0 a w HI Hok Hk Hw. rewrite (AddMessage_registered msg now s0 a w Hk Hw).
    cbv zeta.
    assert (Hok2 : Forall (window_ok c)
                     (heap (set_heap (λ h, <[a := Window_AddMessage w msg]> h) s0))).
    { simpl. apply Forall_insert; [done|]. apply window_ok_add.
      - destruct (inv_registry _ _ HI _ _ Hk) as (w' & Hw' & Hkey). congruence.
      - by eapply Forall_lookup_1. }
    destruct (_ && _); [|done]. by apply windows_ok_closeWindow. }
  intros HI Hok. destruct (windows s !! msg_key msg) as [a|] eqn:Hk.
  - destruct (inv_registry _ _ HI _ _ Hk) as (w & Hw & _). by eapply Hreg.
  - rewrite AddMessage_unregistered by done.
    eapply (Hreg _ (length (heap s))).
    + by apply Inv_install, Inv_log.
    + apply windows_ok_install; [|done]. rewrite (inv_cfg _ _ HI). apply window_ok_new.
    + apply lookup_insert_eq.
    + by rewrite install_heap, lookup_app_r, Nat.sub_diag by done.
Qed.

Lemma windows_ok_step c s e :
  Inv c s → Forall (window_ok c) (heap s) → Forall (window_ok c) (heap (step s e)).
Proof.
  intros HI Hok.
  destruct e as [p now|msg now|order|b|b|b|b now|b now|b err now]; cbn [step].
  - rewrite Start_heap. apply Forall_app. split; [done|].
    apply Forall_singleton. rewrite (inv_cfg _ _ HI). apply window_ok_new.
  - by apply windows_ok_AddMessage.
  - unfold Manager_FlushAllWindows. destruct (decide _); [|done].
    by destruct (flush_loop_frame order s) as (_ & _ & -> & _).
  - unfold flusher_park. by destruct (_ && _).
  - unfold flusher_recv. by destruct (_ && _).
  - unfold flusher_tick. by destruct (_ || _).
  - unfold flusher_on_tick. destruct (flusher_is _ _ _); [|done].
    destruct (heap s !! b); [|done]. destruct (_ && _); [|done].
    by apply (windows_ok_closeWindow c b now (log_Printf _ s)).
  - unfold flusher_on_flush. destruct (flusher_is _ _ _); [|done].
    destruct (heap s !! b); [|done]. destruct (negb _); [|done].
    by apply (windows_ok_closeWindow c b now (log_Printf _ s)).
  - unfold handoff_finish. destruct (decide _); [|done].
    destruct (heap s !! b) as [w|]; [|done].
    change (heap (set_handoffs ?f ?x)) with (heap x).
    apply windows_ok_install.
    + assert (config.Context (cfg s) = config.Context c) as ->
        by by rewrite (inv_cfg _ _ HI).
      apply window_ok_new.
    + by destruct err.
Qed.

Lemma windows_ok_run c evs : ∀ s,
  Inv c s → Forall (window_ok c) (heap s) → Forall (window_ok c) (heap (run evs s)).
Proof.
  induction evs as [|e evs IH]; intros s HI Hok; simpl; [done|].
  apply IH; [by apply Inv_step | by apply windows_ok_step].
Qed.


(** X5. The summary of a window the manager holds never panics and never
    fails: in every state the manager reaches, a window with fewer than
    2^63 messages has for count the number of its messages, and
    [ToContextString] returns a text and a nil error on it. *)
Theorem managed_window_summary (JValue : Type)
    (json_Unmarshal : string → option (gmap string JValue)) (fmt_v : JValue → string)
    (format_RFC3339 : Z → string) (order : range_order JValue)
    (c : config.KafkaTopicConfig) (evs : list event) (a : nat) (w : Window) :
  heap (run evs (NewManager c)) !! a = Some w →
  Z.of_nat (length (Messages w)) ≤ int_max →
  window_wf w
  ∧ ∃ text, Window_ToContextString JValue json_Unmarshal fmt_v format_RFC3339 order w
            = Some (text, None).
Proof.
  intros Hw Hlen.
  assert (Hwf : window_wf w).
  { unfold window_wf. rewrite (inv_count _ _ (Inv_reachable c evs) a w Hw).
    apply int_wrap_small. unfold int_max in *. lia. }
  split; [done|]. unfold Window_ToContextString.
  destruct (decide _); [by eexists|].
  rewrite (summary_writes_wf _ json_Unmarshal fmt_v format_RFC3339 order w Hwf).
  by eexists.
Qed.

(** ** The registry *)

(** X6. In every state the manager reaches, each registry entry leads to
    an allocated window whose topic and partition give the key of the
    entry, no window is filed under two keys, and every window has its
    scheduler goroutine. *)
Theorem registry_consistent (c : config.KafkaTopicConfig) (evs : list event) :
  let s := run evs (NewManager c) in
  (∀ k a, windows s !! k = Some a →
     ∃ w, heap s !! a = Some w ∧ window_key (Topic w) (Partition w) = k)
  ∧ (∀ k1 k2 a, windows s !! k1 = Some a → windows s !! k2 = Some a → k1 = k2)
  ∧ length (flushers s) = length (heap s).
Proof.
  intros s. pose proof (Inv_reachable c evs) as HI. fold s in HI.
  split; [|split].
  - intros k a Hk. by apply (inv_registry _ _ HI).
  - intros k1 k2 a H1 H2.
    destruct (inv_registry _ _ HI _ _ H1) as (w1 & Hw1 & <-).
    destruct (inv_registry _ _ HI _ _ H2) as (w2 & Hw2 & <-). congruence.
  - by apply (inv_flushers _ _ HI).
Qed.

Lemma step_keeps_key c s e k :
  Inv c s → is_Some (windows s !! k) → is_Some (windows (step s e) !! k).
Proof.
  intros HI Hk.
  assert (Hins : ∀ (m : gmap string nat) k0 a0,
            is_Some (m !! k) → is_Some (<[k0 := a0]> m !! k)).
  { intros m k0 a0 Hm. destruct (decide (k0 = k)) as [->|Hne].
    - rewrite lookup_insert_eq. by eexists.
    - by rewrite lookup_insert_ne. }
  destruct e as [p now|msg now|order|b|b|b|b now|b now|b err now]; cbn [step].
  - by apply Hins.
  - destruct (windows s !! msg_key msg) as [a|] eqn:Hreg.
    + destruct (inv_registry _ _ HI _ _ Hreg) as (w & Hw & _).
      by destruct (AddMessage_registered_result msg now s a w Hreg Hw) as (-> & _).
    + rewrite AddMessage_unregistered by done.
      edestruct (AddMessage_registered_result msg now) as (-> & _);
        [apply lookup_insert_eq
        |by rewrite install_heap, lookup_app_r, Nat.sub_diag by done|].
      by apply Hins.
  - unfold Manager_FlushAllWindows. destruct (decide _); [|done].
    by destruct (flush_loop_frame order s) as (_ & -> & _).
  - unfold flusher_park. by destruct (_ && _).
  - unfold flusher_recv. by destruct (_ && _).
  - unfold flusher_tick. by destruct (_ || _).
  - unfold flusher_on_tick. destruct (flusher_is _ _ _); [|done].
    destruct (heap s !! b); [|done]. destruct (_ && _); [|done].
    simpl. by rewrite closeWindow_windows.
  - unfold flusher_on_flush. destruct (flusher_is _ _ _); [|done].
    destruct (heap s !! b); [|done]. destruct (negb _); [|done].
    simpl. by rewrite closeWindow_windows.
  - unfold handoff_finish. destruct (decide _); [|done].
    destruct (heap s !! b) as [w|]; [|done]. simpl.
    destruct (decide (key_of w = k)) as [<-|Hne].
    + rewrite lookup_insert_eq. by eexists.
    + rewrite lookup_insert_ne by done. by destruct err; simpl; rewrite lookup_delete_ne.
Qed.

(** X7. The registry never loses a lane: a key that leads to a window in
    some state the manager reaches leads to a window in every later state;
    a rotation replaces the entry, it does not leave the key without one. *)
Theorem registry_keeps_keys (c : config.KafkaTopicConfig) (evs evs' : list event)
    (k : string) :
  is_Some (windows (run evs (NewManager c)) !! k) →
  is_Some (windows (run evs' (run evs (NewManager c))) !! k).
Proof.
  pose proof (Inv_reachable c evs) as HI. revert HI.
  generalize (run evs (NewManager c)). clear evs.
  induction evs' as [|e evs' IH]; intros s HI Hk; simpl; [done|].
  apply IH; [by apply Inv_step | by apply (step_keeps_key c)].
Qed.

(** X8. [AddMessage] for one lane leaves the other lanes alone: the
    registry entry of any other key and the window it leads to are as they
    were. *)
Theorem AddMessage_other_lanes_untouched (c : config.KafkaTopicConfig)
    (evs : list event) (msg : RawKafkaMessage.t) (now : Z) (k : string) (a : nat) :
  let s := run evs (NewManager c) in
  k ≠ msg_key msg → windows s !! k = Some a →
  windows (Manager_AddMessage msg now s) !! k = Some a
  ∧ heap (Manager_AddMessage msg now s) !! a = heap s !! a.
Proof.
  intros s Hne Hk. pose proof (Inv_reachable c evs) as HI. fold s in HI.
  destruct (inv_registry _ _ HI _ _ Hk) as (wa & Hwa & Hkey).
  destruct (windows s !! msg_key msg) as [a0|] eqn:Hreg.
  - destruct (inv_registry _ _ HI _ _ Hreg) as (w & Hw & Hkey0).
    destruct (AddMessage_registered_result msg now s a0 w Hreg Hw) as (-> & Hother & _).
    split; [done|]. apply Hother. intros ->. congruence.
  - rewrite AddMessage_unregistered by done.
    edestruct (AddMessage_registered_result msg now) as (-> & Hother & _);
      [apply lookup_insert_eq
      |by rewrite install_heap, lookup_app_r, Nat.sub_diag by done|].
    pose proof (lookup_lt_Some _ _ _ Hwa) as Hlt.
    split.
    + simpl. by rewrite lookup_insert_ne.
    + rewrite Hother by (simpl; lia). rewrite install_heap. by apply lookup_app_l.
Qed.

(** ** Below the threshold, and without one *)

Lemma ingest_below topic partition msgs : ∀ s a w,
  on_lane topic partition msgs →
  windows s !! window_key topic partition = Some a →
  heap s !! a = Some w → IsClosed w = false →
  MessageCount w = Z.of_nat (length (Messages w)) →
  (config.WindowMaxMessages (cfg s) ≤ 0
   ∨ MessageCount w + Z.of_nat (length msgs) < config.WindowMaxMessages (cfg s)) →
  MessageCount w + Z.of_nat (length msgs) ≤ int_max →
  let s' := run (ingest msgs) s in
  ∃ w', heap s' = <[a := w']> (heap s)
    ∧ IsClosed w' = false
    ∧ Messages w' = Messages w ++ msgs.*1
    ∧ MessageCount w' = MessageCount w + Z.of_nat (length msgs)
    ∧ windows s' = windows s ∧ handed s' = handed s ∧ handoffs s' = handoffs s.
Proof.
  induction msgs as [|mn rest IH]; intros s a w Hlane Hk Hw Hop Hcnt Hlow Hmax.
  - exists w. simpl. rewrite list_insert_id by done. rewrite app_nil_r.
    repeat split; try done. lia.
  - destruct (Hlane mn) as [Htopic Hpart]; [by left|].
    simpl. rewrite (AddMessage_registered mn.1 mn.2 s a w);
      [|by rewrite Htopic, Hpart|done].
    cbv zeta. pose proof (lookup_lt_Some _ _ _ Hw) as Hlt.
    assert (Hc1 : MessageCount (Window_AddMessage w mn.1) = MessageCount w + 1).
    { simpl. apply int_wrap_small. simpl in Hmax. unfold int_max in *. lia. }
    rewrite Hc1.
    assert ((0 <? config.WindowMaxMessages (cfg s))
            && (config.WindowMaxMessages (cfg s) <=? MessageCount w + 1) = false) as ->.
    { apply andb_false_iff. simpl in Hlow.
      destruct Hlow as [Hoff|Hbelow]; [left; apply Z.ltb_ge | right; apply Z.leb_gt]; lia. }
    edestruct (IH (set_heap (λ h, <[a := Window_AddMessage w mn.1]> h) s) a
                 (Window_AddMessage w mn.1))
      as (w' & Hh & Hcl & Hm & Hc & Hwin & Hd & Hpn).
    + intros x Hx. apply Hlane. by right.
    + done.
    + simpl. by apply list_lookup_insert_eq.
    + done.
    + rewrite Hc1. simpl. rewrite length_app. simpl. lia.
    + rewrite Hc1. simpl in *. lia.
    + rewrite Hc1. simpl in *. lia.
    + exists w'. simpl in *. rewrite Hh, list_insert_insert_eq.
      repeat split; try done.
      * by rewrite Hm, <- app_assoc.
      * rewrite Hc, Hc1. lia.
Qed.

(** X9. Below the threshold, and whatever the number of messages when the
    threshold is 0 or negative, ingestion only appends: after the messages
    of one lane are ingested on a key the registry does not hold, that key
    leads to one open window that holds them all in order, with their
    number for count, and nothing was handed off. *)
Theorem ingest_below_threshold (c : config.KafkaTopicConfig) (evs : list event)
    (topic : string) (partition : Z) (msgs : list (RawKafkaMessage.t * Z)) :
  let s := run evs (NewManager c) in
  let N := config.WindowMaxMessages c in
  let key := window_key topic partition in
  msgs ≠ [] → on_lane topic partition msgs → windows s !! key = None →
  N ≤ 0 ∨ Z.of_nat (length msgs) < N →
  Z.of_nat (length msgs) ≤ int_max →
  let s1 := run (ingest msgs) s in
  ∃ w, windows s1 !! key = Some (length (heap s))
    ∧ heap s1 !! length (heap s) = Some w
    ∧ IsClosed w = false ∧ Messages w = msgs.*1
    ∧ MessageCount w = Z.of_nat (length msgs)
    ∧ handed s1 = handed s.
Proof.
  intros s N key Hne Hlane Hfresh Hlow Hmax s1.
  pose proof (Inv_reachable c evs) as HI. fold s in HI.
  pose proof (inv_cfg _ _ HI) as Hcfg.
  destruct msgs as [|mn rest]; [done|].
  destruct (Hlane mn) as [Htopic Hpart]; [by left|].
  unfold key in *. clear key. subst topic. subst partition.
  set (w0 := NewWindow (RawKafkaMessage.Topic mn.1) (RawKafkaMessage.Partition mn.1)
               (RawKafkaMessage.Timestamp mn.1) (config.Context (cfg s))).
  set (s0 := install (window_key (RawKafkaMessage.Topic mn.1)
                        (RawKafkaMessage.Partition mn.1)) w0
               (log_Printf ("Warning: No active window for topic "
                  +:+ RawKafkaMessage.Topic mn.1 +:+ ", partition "
                  +:+ fmt_d (RawKafkaMessage.Partition mn.1) +:+ ". Creating new.") s)).
  assert (Hs1 : s1 = run (ingest (mn :: rest)) s0).
  { unfold s1. simpl. by rewrite AddMessage_unregistered. }
  destruct (ingest_below (RawKafkaMessage.Topic mn.1) (RawKafkaMessage.Partition mn.1)
              (mn :: rest) s0 (length (heap s)) w0)
    as (w & Hh & Hcl & Hm & Hc & Hwin & Hd & _); try done.
  { apply lookup_insert_eq. }
  { unfold s0. by rewrite install_heap, lookup_app_r, Nat.sub_diag by done. }
  { change (cfg s0) with (cfg s). rewrite Hcfg. fold N. simpl (MessageCount w0).
    destruct Hlow; [by left | right; lia]. }
  rewrite <- Hs1 in Hh, Hwin, Hd. exists w.
  split; [rewrite Hwin; apply lookup_insert_eq|]. split.
  { rewrite Hh. apply list_lookup_insert_eq. unfold s0. rewrite install_heap, length_app.
    simpl. lia. }
  split; [done|]. split; [done|]. split; [|done].
  rewrite Hc. simpl (MessageCount w0). lia.
Qed.

(** ** The timer *)

(** X10. For a duration of [D] seconds, [D] between 1 and 9223372036, the
    product with [time.Second] does not wrap, and on a tick an open window
    is closed exactly when at least [D] seconds have passed since its
    start, whatever the clock and the start time are and whether or not it
    holds a message: it is then marked closed with the time of the tick for
    end time and handed off, and the goroutine returns; otherwise nothing
    changes but the goroutine going back to its loop. *)
Theorem tick_closes_after_duration (s : World) (a : nat) (w : Window) (now : Z) :
  let D := config.WindowDurationSeconds (cfg s) in
  0 < D ≤ 9223372036 →
  heap s !! a = Some w → IsClosed w = false → flushers s !! a = Some FTicked →
  let s' := flusher_on_tick a now s in
  window_duration s = D * 1000000000
  ∧ (D * 1000000000 ≤ now - StartTime w →
     heap s' !! a = Some (mark_closed now w) ∧ handed s' = handed s ++ [a]
     ∧ flushers s' !! a = Some FExited)
  ∧ (now - StartTime w < D * 1000000000 →
     heap s' = heap s ∧ handed s' = handed s ∧ flushers s' !! a = Some FRunning).
Proof.
  intros D HD Hw Hop Hf s'.
  assert (Hdur : window_duration s = D * 1000000000).
  { unfold window_duration. fold D. apply int_wrap_small. unfold int_max. lia. }
  pose proof (lookup_lt_Some _ _ _ Hw) as Hlt.
  pose proof (lookup_lt_Some _ _ _ Hf) as Hltf.
  split; [done|].
  unfold s', flusher_on_tick, flusher_is.
  rewrite bool_decide_eq_true_2 by done. rewrite Hw, Hop, Hdur. simpl (negb false && _).
  split.
  - intros Hdue.
    assert ((D * 1000000000 <=? time_Since now (StartTime w)) = true) as ->.
    { apply Z.leb_le. unfold time_Since, int_max. lia. }
    unfold Manager_closeWindow. simpl. rewrite Hw, Hop. simpl.
    split; [by apply list_lookup_insert_eq|]. split; [done|].
    by apply list_lookup_insert_eq.
  - intros Hearly.
    assert ((D * 1000000000 <=? time_Since now (StartTime w)) = false) as ->.
    { apply Z.leb_gt. unfold time_Since, int_max. lia. }
    simpl. split; [done|]. split; [done|]. by apply list_lookup_insert_eq.
Qed.

(** * The goroutines of the manager *)

Lemma FlusherInv_init c : FlusherInv (NewManager c).
Proof.
  split; simpl; [constructor | | done].
  intros a. rewrite elem_of_nil. by split.
Qed.

(** Steps that start at most one goroutine, leave the queue alone and
    reopen no window keep the invariant. *)
Lemma FlusherInv_frame s s' :
  recvq s' = recvq s →
  flushers s' = flushers s ∨ flushers s' = flushers s ++ [FRunning] →
  (∀ a w, heap s !! a = Some w → IsClosed w = true →
     ∃ w', heap s' !! a = Some w' ∧ IsClosed w' = true) →
  FlusherInv s → FlusherInv s'.
Proof.
  intros Hq Hf Hh [Hnd Hpk Hex].
  assert (Hold : ∀ a st, st ≠ FRunning →
            flushers s' !! a = Some st ↔ flushers s !! a = Some st).
  { intros a st Hst. destruct Hf as [-> | ->]; [done|]. split.
    - intros Hl. apply lookup_app_Some in Hl as [Hl | [_ Hl]]; [done|].
      apply list_lookup_singleton_Some in Hl as [_ ?]. congruence.
    - intros Hl. by apply lookup_app_l_Some. }
  split.
  - by rewrite Hq.
  - intros a. rewrite Hq, Hold by done. apply Hpk.
  - intros a Ha. apply Hold in Ha; [|done].
    destruct (Hex a Ha) as (w & Hw & Hcl). by eapply Hh.
Qed.

(** A goroutine that is not blocked changes its state. *)
Lemma FlusherInv_set_flusher a st s :
  a ∉ recvq s → st ≠ FParked →
  (st = FExited → ∃ w, heap s !! a = Some w ∧ IsClosed w = true) →
  FlusherInv s → FlusherInv (set_flusher a st s).
Proof.
  intros Ha Hst Hcl [Hnd Hpk Hex]. split; simpl.
  - done.
  - intros b. destruct (decide (b = a)) as [->|Hne].
    + split; [done|]. intros Hl.
      apply list_lookup_insert_Some in Hl as [(_ & ? & _) | (? & _)]; congruence.
    + rewrite list_lookup_insert_ne by done. apply Hpk.
  - intros b Hl.
    apply list_lookup_insert_Some in Hl as [(<- & -> & _) | (_ & Hl)]; [by apply Hcl|].
    by apply Hex.
Qed.

Lemma FlusherInv_ext s s' :
  recvq s' = recvq s → flushers s' = flushers s → heap s' = heap s →
  FlusherInv s → FlusherInv s'.
Proof. intros Hq Hf Hh []. split; rewrite ?Hq, ?Hf, ?Hh; done. Qed.

Lemma closeWindow_recvq a now s : recvq (Manager_closeWindow a now s) = recvq s.
Proof. unfold Manager_closeWindow. by repeat case_match. Qed.

Lemma closeWindow_keeps_closed a0 now s a w :
  heap s !! a = Some w → IsClosed w = true →
  ∃ w', heap (Manager_closeWindow a0 now s) !! a = Some w' ∧ IsClosed w' = true.
Proof.
  intros Hw Hcl. destruct (closeWindow_change a0 now s a w Hw) as (w' & Hw' & Hch).
  exists w'. split; [done|]. by apply (change_evolves _ _ _ _ Hch).
Qed.

Lemma FlusherInv_closeWindow a now s :
  FlusherInv s → FlusherInv (Manager_closeWindow a now s).
Proof.
  apply FlusherInv_frame.
  - apply closeWindow_recvq.
  - left. apply closeWindow_flushers.
  - intros. by eapply closeWindow_keeps_closed.
Qed.

Lemma closeWindow_closes a now s w :
  heap s !! a = Some w →
  ∃ w', heap (Manager_closeWindow a now s) !! a = Some w' ∧ IsClosed w' = true.
Proof.
  intros Hw. destruct (IsClosed w) eqn:Hcl.
  - rewrite (closeWindow_closed a w now s Hw Hcl). by exists w.
  - destruct (closeWindow_open a w now s Hw Hcl) as (-> & _).
    eexists. split; [apply list_lookup_insert_eq; by eapply lookup_lt_Some | done].
Qed.

Lemma AddMessage_goroutines msg now s :
  recvq (Manager_AddMessage msg now s) = recvq s
  ∧ (flushers (Manager_AddMessage msg now s) = flushers s
     ∨ flushers (Manager_AddMessage msg now s) = flushers s ++ [FRunning]).
Proof.
  unfold Manager_AddMessage.
  destruct (windows s !! _) as [a|]; cbv zeta.
  - destruct (heap s !! a) as [w|]; [|by split; [|left]].
    destruct (_ && _); [|by split; [|left]].
    rewrite closeWindow_recvq, closeWindow_flushers. by split; [|left].
  - match goal with |- context [heap ?x !! ?i] => destruct (heap x !! i) as [w|] end;
      [|by split; [|right]].
    destruct (_ && _); [|by split; [|right]].
    rewrite closeWindow_recvq, closeWindow_flushers. by split; [|right].
Qed.

Lemma handoff_finish_goroutines a err now s :
  recvq (handoff_finish a err now s) = recvq s
  ∧ (flushers (handoff_finish a err now s) = flushers s
     ∨ flushers (handoff_finish a err now s) = flushers s ++ [FRunning]).
Proof.
  unfold handoff_finish. destruct (decide _); [|by split; [|left]].
  destruct (heap s !! a); [|by split; [|left]].
  destruct err; by split; [|right].
Qed.

Lemma FlusherInv_flush_send s : FlusherInv s → FlusherInv (flush_send s).1.
Proof.
  intros HF. pose proof HF as [Hnd Hpk Hex]. unfold flush_send.
  destruct (recvq s) as [|r q] eqn:Hq.
  { destruct (flushTrigger s); [done|]. by apply (FlusherInv_ext s). }
  apply NoDup_cons in Hnd as [Hr Hnd].
  assert (Hrp : flushers s !! r = Some FParked) by (apply Hpk; left).
  split; simpl.
  - done.
  - intros b. destruct (decide (b = r)) as [->|Hne].
    + split; [done|]. intros Hl.
      apply list_lookup_insert_Some in Hl as [(_ & ? & _) | (? & _)]; congruence.
    + rewrite list_lookup_insert_ne by done. rewrite <- Hpk, elem_of_cons. split; [by right | by intros [?|?]].
  - intros b Hl.
    apply list_lookup_insert_Some in Hl as [(_ & ? & _) | (_ & Hl)]; [done|].
    by apply Hex.
Qed.

Lemma FlusherInv_flush_loop order : ∀ s, FlusherInv s → FlusherInv (flush_loop order s).1.
Proof.
  induction order as [|key rest IH]; intros s HF; [done|].
  rewrite flush_loop_cons_fst. destruct (window_open s key); [|by apply IH].
  by apply IH, FlusherInv_flush_send.
Qed.

Lemma FlusherInv_step c s e : Inv c s → FlusherInv s → FlusherInv (step s e).
Proof.
  intros HI HF.
  assert (Hkeep : ∀ a w, heap s !! a = Some w → IsClosed w = true →
            ∃ w', heap (step s e) !! a = Some w' ∧ IsClosed w' = true).
  { intros a w Hw Hcl. destruct (step_change c s e a w HI Hw) as (w' & Hw' & Hch).
    exists w'. split; [done|]. by apply (change_evolves _ _ _ _ Hch). }
  pose proof HF as [Hnd Hpk Hex].
  destruct e as [p now|msg now|order|a|a|a|a now|a now|a err now].
  - apply (FlusherInv_frame s); [done | by right | done | done].
  - destruct (AddMessage_goroutines msg now s) as [Hq Hf].
    by apply (FlusherInv_frame s).
  - simpl. unfold Manager_FlushAllWindows. destruct (decide _); [|done].
    by apply FlusherInv_flush_loop.
  - simpl. unfold flusher_park, flusher_is.
    destruct (bool_decide _) eqn:Hrun; [|done]. apply bool_decide_eq_true in Hrun.
    destruct (flushTrigger s); [done|]. simpl.
    assert (Ha : a ∉ recvq s) by (rewrite Hpk; congruence).
    split; simpl.
    + apply NoDup_app. split; [done|]. split; [|apply NoDup_singleton].
      intros b Hb ->%list_elem_of_singleton. done.
    + intros b. rewrite elem_of_app, list_elem_of_singleton.
      destruct (decide (b = a)) as [->|Hne].
      * split; [|by right]. intros _. apply list_lookup_insert_eq.
        by eapply lookup_lt_Some.
      * rewrite list_lookup_insert_ne by done. rewrite <- Hpk.
        split; [by intros [?|?] | by left].
    + intros b Hl.
      apply list_lookup_insert_Some in Hl as [(_ & ? & _) | (_ & Hl)]; [done|].
      by apply Hex.
  - simpl. unfold flusher_recv, flusher_is.
    destruct (bool_decide _) eqn:Hrun; [|done]. apply bool_decide_eq_true in Hrun.
    destruct (flushTrigger s); [|done]. simpl.
    apply (FlusherInv_ext (set_flusher a FFlushed s)); try done.
    apply FlusherInv_set_flusher; try done. rewrite Hpk. congruence.
  - simpl. unfold flusher_tick.
    destruct (_ || _); [|done].
    split; simpl.
    + by apply NoDup_filter.
    + intros b. rewrite list_elem_of_filter.
      destruct (decide (b = a)) as [->|Hne].
      * split; [by intros [? _]|]. intros Hl.
        apply list_lookup_insert_Some in Hl as [(_ & ? & _) | (? & _)]; congruence.
      * rewrite list_lookup_insert_ne by done. rewrite <- Hpk.
        split; [by intros [_ ?] | done].
    + intros b Hl.
      apply list_lookup_insert_Some in Hl as [(_ & ? & _) | (_ & Hl)]; [done|].
      by apply Hex.
  - simpl. unfold flusher_on_tick, flusher_is.
    destruct (bool_decide _) eqn:Hst; [|done]. apply bool_decide_eq_true in Hst.
    assert (Ha : a ∉ recvq s) by (rewrite Hpk; congruence).
    destruct (heap s !! a) as [w|] eqn:Hw; [|done].
    destruct (_ && _).
    + apply FlusherInv_set_flusher; [by rewrite closeWindow_recvq | done | |].
      * intros _. by apply (closeWindow_closes a now (log_Printf _ s) w).
      * apply FlusherInv_closeWindow. by apply (FlusherInv_ext s).
    + by apply FlusherInv_set_flusher.
  - simpl. unfold flusher_on_flush, flusher_is.
    destruct (bool_decide _) eqn:Hst; [|done]. apply bool_decide_eq_true in Hst.
    assert (Ha : a ∉ recvq s) by (rewrite Hpk; congruence).
    destruct (heap s !! a) as [w|] eqn:Hw; [|done].
    destruct (IsClosed w) eqn:Hcl; simpl.
    + apply FlusherInv_set_flusher; try done. intros _. by exists w.
    + apply FlusherInv_set_flusher; [by rewrite closeWindow_recvq | done | |].
      * intros _. by apply (closeWindow_closes a now (log_Printf _ s) w).
      * apply FlusherInv_closeWindow. by apply (FlusherInv_ext s).
  - destruct (handoff_finish_goroutines a err now s) as [Hq Hf].
    by apply (FlusherInv_frame s).
Qed.

Lemma FlusherInv_reachable c evs : FlusherInv (run evs (NewManager c)).
Proof.
  assert (H : ∀ s, Inv c s → FlusherInv s → FlusherInv (run evs s)).
  { induction evs as [|e evs IH]; intros s HI HF; [done|]. simpl.
    apply IH; [by apply Inv_step | by eapply FlusherInv_step]. }
  apply H; [apply Inv_init | apply FlusherInv_init].
Qed.

(** X11. No open window is left without its timer: in every state the
    manager reaches, the scheduler goroutine of a window that is not closed
    has not returned. *)
Theorem open_window_keeps_flusher (c : config.KafkaTopicConfig) (evs : list event)
    (a : nat) (w : Window) :
  let s := run evs (NewManager c) in
  heap s !! a = Some w → IsClosed w = false →
  ∃ st, flushers s !! a = Some st ∧ st ≠ FExited.
Proof.
  intros s Hw Hop.
  pose proof (inv_flushers _ _ (Inv_reachable c evs)) as Hlen. fold s in Hlen.
  destruct (lookup_lt_is_Some_2 (flushers s) a) as [st Hst].
  { rewrite Hlen. by eapply lookup_lt_Some. }
  exists st. split; [done|]. intros ->.
  destruct (finv_exited _ (FlusherInv_reachable c evs) a Hst) as (w' & Hw' & Hcl).
  fold s in Hw'. congruence.
Qed.

Lemma flush_send_receivers s :
  FlusherInv s →
  match (flush_send s).2 with
  | Delivered r => recvq s = r :: recvq (flush_send s).1
                   ∧ flushers (flush_send s).1 !! r = Some FFlushed
  | _ => recvq s = [] ∧ recvq (flush_send s).1 = []
  end.
Proof.
  intros [Hnd Hpk Hex]. unfold flush_send.
  destruct (recvq s) as [|r q] eqn:Hq.
  - destruct (flushTrigger s); simpl; by rewrite ?Hq.
  - simpl. split; [done|]. apply list_lookup_insert_eq.
    apply (lookup_lt_Some _ _ FParked), Hpk. left.
Qed.

Lemma flush_loop_receivers order : ∀ s,
  FlusherInv s →
  receivers (flush_loop order s).2 ++ recvq (flush_loop order s).1 = recvq s
  ∧ ∀ r, r ∈ receivers (flush_loop order s).2 →
         flushers (flush_loop order s).1 !! r = Some FFlushed.
Proof.
  induction order as [|key rest IH]; intros s HF.
  { split; [done|]. intros r Hr. by apply elem_of_nil in Hr. }
  simpl. destruct (window_open s key); [|by apply IH].
  pose proof (flush_send_receivers s HF) as Hsend.
  pose proof (FlusherInv_flush_send s HF) as HF1.
  destruct (flush_send s) as [s1 o]. cbn [fst snd] in *.
  destruct (IH s1 HF1) as [IHq IHf].
  pose proof (flush_loop_flusher rest s1) as Hkeep.
  destruct (flush_loop rest s1) as [s2 os]. cbn [fst snd] in *.
  unfold receivers in *. cbn [omap list_omap fst snd].
  destruct o as [r| |]; cbn [fst snd].
  - destruct Hsend as [Hq Hr]. split; [simpl; by rewrite IHq|].
    intros b [->|Hb]%elem_of_cons; [|by apply IHf].
    by destruct (Hkeep r FFlushed Hr).
  - destruct Hsend as [Hq Hq1]. by split; [rewrite IHq, Hq1, Hq|].
  - destruct Hsend as [Hq Hq1]. by split; [rewrite IHq, Hq1, Hq|].
Qed.

(** X12. [FlushAllWindows] serves the goroutines blocked on [flushTrigger]
    oldest first, whichever windows it found open: the goroutines that
    take its requests are the first of the queue, in order, and leave it;
    each of them is past [select] on the flush branch, and its critical
    section ends with the goroutine returned and its own window closed. *)
Theorem flush_requests_served_in_order (c : config.KafkaTopicConfig) (evs : list event)
    (order : list string) :
  let s := run evs (NewManager c) in
  map_order order s →
  let s' := Manager_FlushAllWindows order s in
  let rs := receivers (flush_outcomes order s) in
  rs ++ recvq s' = recvq s
  ∧ (∀ r, r ∈ rs → flushers s' !! r = Some FFlushed)
  ∧ (∀ r now, r ∈ rs →
       let s'' := flusher_on_flush r now s' in
       flushers s'' !! r = Some FExited
       ∧ ∃ w, heap s'' !! r = Some w ∧ IsClosed w = true).
Proof.
  intros s Horder s' rs.
  pose proof (FlusherInv_reachable c evs) as HF. fold s in HF.
  pose proof (Inv_reachable c evs) as HI. fold s in HI.
  destruct (flush_loop_receivers order s HF) as [Hq Hf].
  assert (Hs' : s' = (flush_loop order s).1).
  { unfold s', Manager_FlushAllWindows. by rewrite decide_True. }
  split; [by rewrite Hs'|]. split; [intros r Hr; rewrite Hs'; by apply Hf|].
  intros r now Hr s''.
  assert (Hst : flushers s' !! r = Some FFlushed) by (rewrite Hs'; by apply Hf).
  pose proof (Inv_FlushAllWindows c order s HI) as HI'. fold s' in HI'.
  destruct (lookup_lt_is_Some_2 (heap s') r) as [w Hw].
  { rewrite <- (inv_flushers _ _ HI'). by eapply lookup_lt_Some. }
  unfold s'', flusher_on_flush, flusher_is.
  rewrite bool_decide_eq_true_2 by done. rewrite Hw.
  destruct (IsClosed w) eqn:Hcl; cbn [negb].
  - split; [by apply list_lookup_insert_eq; eapply lookup_lt_Some|]. by exists w.
  - split.
    + simpl. apply list_lookup_insert_eq. rewrite closeWindow_flushers.
      by eapply lookup_lt_Some.
    + by apply (closeWindow_closes r now (log_Printf _ s') w).
Qed.

(** * The consumer *)

Lemma StartConsuming_consume name partition polls : ∀ s s',
  unlog s = unlog s' →
  unlog (consume name partition polls s).1 = unlog (run (ingest (delivered polls)) s').
Proof.
  induction polls as [|p polls IH]; intros s s' Heq; [done|].
  destruct p as [|e ctx_done|msg now commit]; simpl.
  - done.
  - destruct ctx_done; [done|]. by apply IH.
  - apply IH.
    transitivity (unlog (step s (EvAddMessage (to_RawKafkaMessage msg) now)));
      [by destruct commit|].
    change (Manager_AddMessage (to_RawKafkaMessage msg) now s')
      with (step s' (EvAddMessage (to_RawKafkaMessage msg) now)).
    by rewrite (unlog_step s), (unlog_step s'), Heq.
Qed.

(** X13. The consumer passes every message it fetches to [AddMessage],
    once and in the order fetched, until its context is done: up to the
    log, [StartConsuming] leaves the manager as the calls of [AddMessage]
    on those messages do, whatever the topic name and the partition it was
    started with and whether or not the commits and the other fetches
    fail; and the windows then hold, counted with multiplicity, the
    messages ingested before together with the ones it delivered. *)
Theorem StartConsuming_delivers (c : config.KafkaTopicConfig) (name : string)
    (partition : Z) (polls : list poll) (evs : list event) :
  let s := run evs (NewManager c) in
  let s' := (StartConsuming name partition polls s).1 in
  unlog s' = unlog (run (ingest (delivered polls)) s)
  ∧ all_messages s' ≡ₚ ingested evs ++ (delivered polls).*1.
Proof.
  intros s s'.
  assert (Hrun : unlog s' = unlog (run (ingest (delivered polls)) s)).
  { by apply StartConsuming_consume. }
  split; [done|].
  assert (Hall : all_messages s' = all_messages (run (ingest (delivered polls)) s)).
  { unfold all_messages. change (heap s') with (heap (unlog s')). by rewrite Hrun. }
  rewrite Hall. unfold s.
  rewrite (all_messages_run c _ _ (Inv_reachable c evs)).
  rewrite (all_messages_run c evs _ (Inv_init c)). simpl.
  f_equiv. unfold ingested, ingest. clear.
  induction (delivered polls) as [|mn l IH]; [done|]. simpl. by rewrite IH.
Qed.

(** Settles the cases of a statement by cases on the path taken. *)
Ltac settle_cases :=
  repeat split; intros;
    repeat match goal with
           | H : _ ∧ _ |- _ => destruct H
           | H : _ ∨ _ |- _ => destruct H
           end;
    try done; try congruence; eauto.

(** The same for statements about the calls made. *)
Ltac settle_calls :=
  repeat split; intros;
    repeat match goal with
           | H : _ ∈ [] |- _ => by apply elem_of_nil in H
           | H : _ ∈ _ :: _ |- _ => apply elem_of_cons in H as [H|H]
           end;
    simplify_eq; simpl; eauto 10; try lia.

(** * The processor *)

Section ProcessorFacts.
Context {vector JValue : Type}.
Variable json_Unmarshal : string → option (gmap string JValue).
Variable fmt_v : JValue → string.
Variable format_RFC3339 : Z → string.
Variable GetEmbedding : string → result vector.
Variable SaveEmbeddedWindow : EmbeddedWindow.t vector → error.

Local Abbreviation ProcessWindow' :=
  (ProcessWindow vector JValue json_Unmarshal fmt_v format_RFC3339 GetEmbedding
     SaveEmbeddedWindow).
Local Abbreviation ToContextString' :=
  (Window_ToContextString JValue json_Unmarshal fmt_v format_RFC3339).

Lemma ToContextString_wf order w :
  window_wf w → ∃ text, ToContextString' order w = Some (text, None).
Proof.
  intros Hwf. unfold Window_ToContextString.
  destruct (decide _); [by eexists|].
  rewrite (summary_writes_wf _ json_Unmarshal fmt_v format_RFC3339 order w Hwf).
  by eexists.
Qed.

(** X14. On a window whose count is the number of its messages,
    [ProcessWindow] returns, and first asks for the embedding of the
    summary of the window; it saves a document only when it got the
    embedding, the document then carrying the identifier, topic, partition,
    times and count of the window, the summary as its text, the vector
    returned for that summary, and no raw message; and it returns nil
    exactly when the save of that document succeeded. *)
Theorem ProcessWindow_saves_what_it_embedded (order : range_order JValue) (w : Window) :
  window_wf w →
  ∃ text err calls logs,
    ToContextString' order w = Some (text, None)
    ∧ ProcessWindow' order w = Some (err, calls, logs)
    ∧ head calls = Some (CallEmbed vector text)
    ∧ (∀ ew, CallSave vector ew ∈ calls →
         GetEmbedding text = Ok (EmbeddedWindow.Embedding ew)
         ∧ EmbeddedWindow.ContextText ew = text
         ∧ EmbeddedWindow.WindowID ew = ID w
         ∧ EmbeddedWindow.Topic ew = Topic w
         ∧ EmbeddedWindow.Partition ew = Partition w
         ∧ EmbeddedWindow.StartTime ew = StartTime w
         ∧ EmbeddedWindow.EndTime ew = EndTime w
         ∧ EmbeddedWindow.MessageCount ew = MessageCount w
         ∧ EmbeddedWindow.KafkaMessages ew = [])
    ∧ ((∃ e, GetEmbedding text = Err e) ↔ calls = [CallEmbed vector text])
    ∧ (err = None ↔ ∃ ew, CallSave vector ew ∈ calls ∧ SaveEmbeddedWindow ew = None).
Proof.
  intros Hwf. destruct (ToContextString_wf order w Hwf) as [text Htext].
  exists text. unfold ProcessWindow. rewrite Htext. cbv zeta.
  destruct (GetEmbedding text) as [v|e] eqn:Hg.
  - match goal with |- context [SaveEmbeddedWindow ?x] => set (ew0 := x) end.
    destruct (SaveEmbeddedWindow ew0) as [e|] eqn:Hs.
    + do 3 eexists. split; [done|]. split; [done|]. split; [done|].
      split; [settle_calls|]. split; [split; [by intros [? ?]|done]|].
      split; [done|]. intros (ew & Hin & Hnone). settle_calls.
    + do 3 eexists. split; [done|]. split; [done|]. split; [done|].
      split; [settle_calls|]. split; [split; [by intros [? ?]|done]|].
      split; [|done]. intros _. exists ew0. split; [|done]. set_solver.
  - do 3 eexists. split; [done|]. split; [done|]. split; [done|].
    split; [settle_calls|]. split; [split; [done|by eexists]|].
    split; [done|]. intros (ew & Hin & _). settle_calls.
Qed.

End ProcessorFacts.

(** * The search *)

Section SearchFacts.
Context {vector : Type}.
Variable marshal_query : vector → Z → result string.
Variable es_search : vector → Z → result (option (list string)).
Variable unmarshal_hit : string → result (EmbeddedWindow.t vector).

Local Abbreviation SearchSimilarWindows' :=
  (SearchSimilarWindows vector marshal_query es_search unmarshal_hit).

Lemma collect_hits_found hits : ∀ found logs,
  (collect_hits vector unmarshal_hit hits found logs).1
  = found ++ omap (λ hit, decoded (unmarshal_hit hit)) hits.
Proof.
  induction hits as [|hit rest IH]; intros found logs; simpl.
  - by rewrite app_nil_r.
  - destruct (unmarshal_hit hit) as [ew|e]; simpl; rewrite IH; [|done].
    by rewrite <- app_assoc.
Qed.

Lemma SearchSimilarWindows_found (indexName : string) (queryEmbedding : vector) (k : Z)
    (body : string) (hits : option (list string)) :
  marshal_query queryEmbedding k = Ok body → es_search queryEmbedding k = Ok hits →
  (SearchSimilarWindows' indexName queryEmbedding k).1.1
  = Ok (omap (λ hit, decoded (unmarshal_hit hit)) (default [] hits)).
Proof.
  intros Hm Hs. unfold SearchSimilarWindows. rewrite Hm. cbv zeta. rewrite Hs.
  destruct hits as [hits|]; [|done].
  pose proof (collect_hits_found hits []
    ["DEBUG: Sending ES k-NN search request to index '" +:+ indexName
       +:+ "' with body: " +:+ body]) as Hfound.
  destruct (collect_hits _ _ _ _ _) as [found logs]. simpl in Hfound. by subst found.
Qed.

(** X16. [SearchSimilarWindows] sends no search request when the query
    cannot be marshalled, returns an error exactly when the marshalling or
    the search fails, and otherwise returns the hits that decode, in the
    order of the response: a hit that does not decode is skipped, and a
    response without hits gives the empty list. *)
Theorem SearchSimilarWindows_returns_decodable_hits (indexName : string)
    (queryEmbedding : vector) (k : Z) :
  let res := (SearchSimilarWindows' indexName queryEmbedding k).1.1 in
  let sent := (SearchSimilarWindows' indexName queryEmbedding k).1.2 in
  (sent = false ↔ ∃ e, marshal_query queryEmbedding k = Err e)
  ∧ ((∃ e, res = Err e)
     ↔ (∃ e, marshal_query queryEmbedding k = Err e)
       ∨ (∃ e, es_search queryEmbedding k = Err e))
  ∧ (∀ body hits, marshal_query queryEmbedding k = Ok body →
       es_search queryEmbedding k = Ok hits →
       res = Ok (omap (λ hit, decoded (unmarshal_hit hit)) (default [] hits))).
Proof.
  unfold SearchSimilarWindows.
  destruct (marshal_query queryEmbedding k) as [body|e] eqn:Hm.
  2:{ simpl. split; [split; [by eexists|done]|]. split; [|done].
      split; [intros _; left; by eexists | by eexists]. }
  cbv zeta. destruct (es_search queryEmbedding k) as [[hits|]|e] eqn:Hs.
  - pose proof (collect_hits_found hits []
      ["DEBUG: Sending ES k-NN search request to index '" +:+ indexName
         +:+ "' with body: " +:+ body]) as Hfound.
    destruct (collect_hits _ _ _ _ _) as [found logs]. simpl in Hfound. subst found.
    simpl. split; [split; [done|by intros [? ?]]|].
    split; [split; [by intros [? ?] | by intros [[? ?]|[? ?]]]|].
    by intros ? ? _ [= <-].
  - simpl. split; [split; [done|by intros [? ?]]|].
    split; [split; [by intros [? ?] | by intros [[? ?]|[? ?]]]|].
    by intros ? ? _ [= <-].
  - simpl. split; [split; [done|by intros [? ?]]|].
    split; [split; [intros _; right; by eexists | by eexists]|]. done.
Qed.
End SearchFacts.

(** * The prompt and the query handler *)

Lemma sb_String_app (l1 l2 : list string) :
  sb_String (l1 ++ l2) = sb_String l1 +:+ sb_String l2.
Proof.
  induction l1 as [|x l1 IH]; [done|].
  change (x +:+ sb_String (l1 ++ l2) = (x +:+ sb_String l1) +:+ sb_String l2).
  by rewrite IH, string_app_assoc.
Qed.

Lemma rag_windows_lookup {vector} (ws : list (EmbeddedWindow.t vector)) : ∀ j i w,
  ws !! i = Some w →
  ∃ pre post,
    rag_windows vector j ws
    = pre ++ [rag_window_header vector (j + i) w; EmbeddedWindow.ContextText w; nl +:+ nl]
          ++ post.
Proof.
  induction ws as [|w0 rest IH]; intros j i w Hi; [done|].
  destruct i as [|i]; simpl in Hi.
  - injection Hi as ->. exists [], (rag_windows vector (S j) rest).
    by rewrite Nat.add_0_r.
  - destruct (IH (S j) i w Hi) as (pre & post & Heq).
    exists ([rag_window_header vector j w0; EmbeddedWindow.ContextText w0; nl +:+ nl] ++ pre),
      post.
    cbn [rag_windows]. rewrite Heq. rewrite <- Nat.add_succ_comm.
    by rewrite <- !app_assoc.
Qed.

Lemma sb_String_cons (x : string) (l : list string) : sb_String (x :: l) = x +:+ sb_String l.
Proof. done. Qed.

Lemma string_app_nil_r (x : string) : x +:+ "" = x.
Proof.
  induction x as [|ch x IH]; [done|].
  change (String ch (x +:+ "") = String ch x). by rewrite IH.
Qed.

(** Turns the text of a list of writes into one concatenation. *)
Ltac flatten_writes :=
  rewrite ?sb_String_app, ?sb_String_cons; change (sb_String []) with "";
  rewrite ?string_app_nil_r, ?string_app_assoc.


Section ApiFacts.
Context {vector : Type}.
Variable decode_QueryRequest : string → option string.
Variable GetEmbedding : string → result vector.
Variable SearchSimilarWindows : vector → Z → result (list (EmbeddedWindow.t vector)).
Variable GenerateContent : string → result string.

Local Abbreviation handleQuery' :=
  (handleQuery vector decode_QueryRequest GetEmbedding SearchSimilarWindows GenerateContent).


(** X19. [handleQuery] answers 405 exactly to a request that is not a
    POST, and 400 exactly to a POST whose body does not decode or whose
    prompt is empty; these requests, and no others, reach no service and
    leave no line in the log, and they are answered in plain text. *)
Theorem handleQuery_rejects (r : Request) :
  let resp := (handleQuery' r).1.1 in
  let calls := (handleQuery' r).1.2 in
  let logs := (handleQuery' r).2 in
  (StatusCode resp = 405 ↔ Method r ≠ "POST")
  ∧ (StatusCode resp = 400
     ↔ Method r = "POST"
       ∧ (decode_QueryRequest (Body r) = None ∨ decode_QueryRequest (Body r) = Some ""))
  ∧ (calls = [] ↔ StatusCode resp = 405 ∨ StatusCode resp = 400)
  ∧ (logs = [] ↔ calls = [])
  ∧ (calls = [] → ∃ msg, ResponseOf resp = PlainText msg).
Proof.
  unfold handleQuery.
  destruct (bool_decide (Method r = "POST")) eqn:Hm; cbn [negb].
  2:{ apply bool_decide_eq_false in Hm. simpl. settle_cases. }
  apply bool_decide_eq_true in Hm.
  destruct (decode_QueryRequest (Body r)) as [prompt|]; [|simpl; settle_cases].
  destruct (bool_decide (prompt = "")) eqn:Hp.
  { apply bool_decide_eq_true in Hp. subst prompt. simpl. settle_cases. }
  apply bool_decide_eq_false in Hp. cbv zeta.
  destruct (GetEmbedding prompt) as [v|e]; [|simpl; settle_cases].
  destruct (SearchSimilarWindows v 5) as [ws|e]; [|simpl; settle_cases].
  destruct (GenerateContent _) as [answer|e]; simpl; settle_cases.
Qed.

(** X20. [handleQuery] calls a service only with what the previous one
    returned: the embedding is asked for the non-empty prompt of a POST,
    the search only for the embedding returned for that prompt and for
    five windows, the model only with the prompt built from the windows
    the search returned; and it makes three calls at most. *)
Theorem handleQuery_calls_staged (r : Request) :
  let calls := (handleQuery' r).1.2 in
  (∀ text, CallGetEmbedding vector text ∈ calls →
     Method r = "POST" ∧ decode_QueryRequest (Body r) = Some text ∧ text ≠ "")
  ∧ (∀ v k, CallSearchSimilarWindows vector v k ∈ calls →
       k = 5 ∧ ∃ prompt, decode_QueryRequest (Body r) = Some prompt
                         ∧ GetEmbedding prompt = Ok v)
  ∧ (∀ text, CallGenerateContent vector text ∈ calls →
       ∃ prompt v ws, decode_QueryRequest (Body r) = Some prompt
                      ∧ GetEmbedding prompt = Ok v ∧ SearchSimilarWindows v 5 = Ok ws
                      ∧ text = buildRAGPrompt vector prompt ws)
  ∧ (length calls ≤ 3)%nat.
Proof.
  unfold handleQuery.
  destruct (bool_decide (Method r = "POST")) eqn:Hm; cbn [negb]; [|simpl; settle_calls].
  apply bool_decide_eq_true in Hm.
  destruct (decode_QueryRequest (Body r)) as [prompt|]; [|simpl; settle_calls].
  destruct (bool_decide (prompt = "")) eqn:Hp; [simpl; settle_calls|].
  apply bool_decide_eq_false in Hp. cbv zeta.
  destruct (GetEmbedding prompt) as [v|e] eqn:Hg; [|simpl; settle_calls].
  destruct (SearchSimilarWindows v 5) as [ws|e] eqn:Hs; [|simpl; settle_calls].
  destruct (GenerateContent _) as [answer|e]; simpl; settle_calls.
Qed.
End ApiFacts.

(** X21. The text of an error of a service reaches the log only: had the
    services failed on the same calls with other error texts, and returned
    the same values otherwise, [handleQuery] would have written the same
    response after the same calls. *)
Theorem handleQuery_error_text_only_logged {vector : Type}
    (decode_QueryRequest : string → option string)
    (GetEmbedding GetEmbedding' : string → result vector)
    (SearchSimilarWindows SearchSimilarWindows'
       : vector → Z → result (list (EmbeddedWindow.t vector)))
    (GenerateContent GenerateContent' : string → result string) (r : Request) :
  (∀ text, same_outcome (GetEmbedding text) (GetEmbedding' text)) →
  (∀ v k, same_outcome (SearchSimilarWindows v k) (SearchSimilarWindows' v k)) →
  (∀ text, same_outcome (GenerateContent text) (GenerateContent' text)) →
  (handleQuery vector decode_QueryRequest GetEmbedding SearchSimilarWindows
     GenerateContent r).1
  = (handleQuery vector decode_QueryRequest GetEmbedding' SearchSimilarWindows'
       GenerateContent' r).1.
Proof.
  intros HG HS HL. unfold handleQuery.
  destruct (bool_decide (Method r = "POST")); cbn [negb]; [|done].
  destruct (decode_QueryRequest (Body r)) as [prompt|]; [|done].
  destruct (bool_decide (prompt = "")); [done|]. cbv zeta.
  specialize (HG prompt).
  destruct (GetEmbedding prompt) as [v|e], (GetEmbedding' prompt) as [v'|e'];
    simpl in HG; try done. subst v'.
  specialize (HS v 5).
  destruct (SearchSimilarWindows v 5) as [ws|e], (SearchSimilarWindows' v 5) as [ws'|e'];
    simpl in HS; try done. subst ws'.
  specialize (HL (buildRAGPrompt vector prompt ws)).
  destruct (GenerateContent _) as [a|e], (GenerateContent' _) as [a'|e'];
    simpl in HL; try done. by subst a'.
Qed.

(** X22. The handler over the search of package vectordb: for a POST with
    a non-empty prompt whose embedding is returned and whose search request
    is answered, the model is asked the prompt built from the hits that
    decode, in the order of the response, after one call to each of the
    other two services; the response is 200 with the answer of the model
    when it gives one, and 500 with a fixed message when it fails. *)
Theorem query_answers_from_decodable_hits {vector : Type}
    (decode_QueryRequest : string → option string)
    (GetEmbedding : string → result vector)
    (marshal_query : vector → Z → result string)
    (es_search : vector → Z → result (option (list string)))
    (unmarshal_hit : string → result (EmbeddedWindow.t vector))
    (GenerateContent : string → result string)
    (indexName : string) (r : Request) (prompt body : string) (v : vector)
    (hits : option (list string)) :
  Method r = "POST" → decode_QueryRequest (Body r) = Some prompt → prompt ≠ "" →
  GetEmbedding prompt = Ok v → marshal_query v 5 = Ok body → es_search v 5 = Ok hits →
  let search := λ q k,
    (SearchSimilarWindows vector marshal_query es_search unmarshal_hit indexName q k).1.1 in
  let found := omap (λ hit, decoded (unmarshal_hit hit)) (default [] hits) in
  let ragPrompt := buildRAGPrompt vector prompt found in
  let out := handleQuery vector decode_QueryRequest GetEmbedding search GenerateContent r in
  out.1.2 = [CallGetEmbedding vector prompt; CallSearchSimilarWindows vector v 5;
             CallGenerateContent vector ragPrompt]
  ∧ (∀ answer, GenerateContent ragPrompt = Ok answer →
       out.1.1 = {| StatusCode := 200; ResponseOf := QueryResponse answer "" |})
  ∧ (∀ e, GenerateContent ragPrompt = Err e →
       out.1.1 = {| StatusCode := 500;
                    ResponseOf := QueryResponse "" "Failed to generate LLM response" |}).
Proof.
  intros Hm Hd Hp Hg Hmq Hes search found ragPrompt out.
  assert (Hs : search v 5 = Ok found).
  { by apply (SearchSimilarWindows_found _ _ _ indexName v 5 body hits). }
  unfold out, handleQuery.
  rewrite bool_decide_eq_true_2 by done. cbn [negb]. rewrite Hd.
  rewrite bool_decide_eq_false_2 by done. cbv zeta. rewrite Hg, Hs. fold ragPrompt.
  destruct (GenerateContent ragPrompt) as [answer|e].
  - split; [done|]. split; [by intros ? [= <-] | done].
  - split; [done|]. split; [done | by intros ? _].
Qed.

(** * The further properties at sample inputs *)

Lemma window_messages_in_order_witness :
  heap one_in !! 0%nat = Some window1
  ∧ Messages window1 `sublist_of` ingested [EvAddMessage e1 2001].
Proof.
  split; [reflexivity|].
  exact (window_messages_in_order cfg3 [EvAddMessage e1 2001] 0 window1 eq_refl).
Defined.



Lemma window1_small : Z.of_nat (length (Messages window1)) ≤ int_max.
Proof. by vm_compute. Qed.

Lemma managed_window_summary_witness :
  heap one_in !! 0%nat = Some window1
  ∧ Z.of_nat (length (Messages window1)) ≤ int_max
  ∧ window_wf window1.
Proof.
  split; [reflexivity|]. split; [exact window1_small|].
  exact (proj1 (managed_window_summary string sample_Unmarshal id sample_time_format
                  order_fwd cfg3 [EvAddMessage e1 2001] 0 window1 eq_refl window1_small)).
Defined.

Lemma registry_consistent_witness :
  windows started !! "orders_0" = Some 0%nat
  ∧ ∃ w, heap started !! 0%nat = Some w ∧ window_key (Topic w) (Partition w) = "orders_0".
Proof.
  split; [reflexivity|].
  exact (proj1 (registry_consistent cfg3 [EvStart 0 1000]) "orders_0" 0%nat eq_refl).
Defined.

Lemma started_holds_lane : is_Some (windows started !! "orders_0").
Proof. by eexists. Qed.

Lemma registry_keeps_keys_witness :
  is_Some (windows started !! "orders_0")
  ∧ is_Some (windows (run (ingest three_in) started) !! "orders_0").
Proof.
  split; [exact started_holds_lane|].
  exact (registry_keeps_keys cfg3 [EvStart 0 1000] (ingest three_in) "orders_0"
           started_holds_lane).
Defined.

Lemma other_lane_key : "orders_0" ≠ msg_key e_p1.
Proof. by vm_compute. Qed.

Lemma AddMessage_other_lanes_untouched_witness :
  "orders_0" ≠ msg_key e_p1 ∧ windows started !! "orders_0" = Some 0%nat
  ∧ windows (Manager_AddMessage e_p1 1500 started) !! "orders_0" = Some 0%nat.
Proof.
  split; [exact other_lane_key|]. split; [reflexivity|].
  exact (proj1 (AddMessage_other_lanes_untouched cfg3 [EvStart 0 1000] e_p1 1500
                  "orders_0" 0 other_lane_key eq_refl)).
Defined.

Lemma one_msg_on_lane : on_lane "orders" 0 [(e1, 2001)].
Proof.
  intros mn Hin. apply elem_of_cons in Hin as [->|Hin]; [by split|].
  by apply elem_of_nil in Hin.
Qed.

Lemma one_msg_below : config.WindowMaxMessages cfg3 ≤ 0
                      ∨ Z.of_nat (length [(e1, 2001)]) < config.WindowMaxMessages cfg3.
Proof. right. by vm_compute. Qed.

Lemma one_msg_small : Z.of_nat (length [(e1, 2001)]) ≤ int_max.
Proof. by vm_compute. Qed.

Lemma one_msg_some : [(e1, 2001)] ≠ [].
Proof. done. Qed.

Lemma ingest_below_threshold_witness :
  [(e1, 2001)] ≠ [] ∧ on_lane "orders" 0 [(e1, 2001)]
  ∧ windows (NewManager cfg3) !! window_key "orders" 0 = None
  ∧ (config.WindowMaxMessages cfg3 ≤ 0
     ∨ Z.of_nat (length [(e1, 2001)]) < config.WindowMaxMessages cfg3)
  ∧ Z.of_nat (length [(e1, 2001)]) ≤ int_max
  ∧ ∃ w, heap one_in !! 0%nat = Some w ∧ IsClosed w = false ∧ Messages w = [e1].
Proof.
  split; [exact one_msg_some|]. split; [exact one_msg_on_lane|]. split; [reflexivity|].
  split; [exact one_msg_below|]. split; [exact one_msg_small|].
  destruct (ingest_below_threshold cfg3 [] "orders" 0 [(e1, 2001)] one_msg_some
              one_msg_on_lane eq_refl one_msg_below one_msg_small)
    as (w & _ & Hw & Hop & Hm & _).
  exists w. split; [exact Hw|]. split; [exact Hop | exact Hm].
Defined.

Lemma hour_in_range : 0 < config.WindowDurationSeconds (cfg ticked) ≤ 9223372036.
Proof. by vm_compute. Qed.

Lemma tick_closes_after_duration_witness :
  0 < config.WindowDurationSeconds (cfg ticked) ≤ 9223372036
  ∧ heap ticked !! 0%nat = Some window0 ∧ IsClosed window0 = false
  ∧ flushers ticked !! 0%nat = Some FTicked
  ∧ window_duration ticked = 3600 * 1000000000.
Proof.
  split; [exact hour_in_range|]. split; [reflexivity|]. split; [reflexivity|].
  split; [reflexivity|].
  exact (proj1 (tick_closes_after_duration ticked 0 window0 3600000001000 hour_in_range
                  eq_refl eq_refl eq_refl)).
Defined.

Lemma open_window_keeps_flusher_witness :
  heap started !! 0%nat = Some window0 ∧ IsClosed window0 = false
  ∧ ∃ st, flushers started !! 0%nat = Some st ∧ st ≠ FExited.
Proof.
  split; [reflexivity|]. split; [reflexivity|].
  exact (open_window_keeps_flusher cfg3 [EvStart 0 1000] 0 window0 eq_refl eq_refl).
Defined.

Lemma parked_order : map_order ["orders_0"] parked.
Proof. apply (bool_decide_unpack _). by vm_compute. Qed.

Lemma flush_requests_served_in_order_witness :
  map_order ["orders_0"] parked
  ∧ receivers (flush_outcomes ["orders_0"] parked)
      ++ recvq (Manager_FlushAllWindows ["orders_0"] parked)
    = recvq parked.
Proof.
  split; [exact parked_order|].
  exact (proj1 (flush_requests_served_in_order cfg3 [EvStart 0 1000; EvPark 0]
                  ["orders_0"] parked_order)).
Defined.

Lemma ProcessWindow_saves_what_it_embedded_witness :
  window_wf window_ab
  ∧ ∃ text err calls logs,
      sample_summary order_fwd window_ab = Some (text, None)
      ∧ ProcessWindow sample_vector string sample_Unmarshal id sample_time_format
          sample_embed sample_save order_fwd window_ab
        = Some (err, calls, logs)
      ∧ head calls = Some (CallEmbed sample_vector text).
Proof.
  split; [exact window_ab_wf|].
  destruct (ProcessWindow_saves_what_it_embedded sample_Unmarshal id sample_time_format
              sample_embed sample_save order_fwd window_ab window_ab_wf)
    as (text & err & calls & logs & Ht & Hp & Hh & _).
  exists text, err, calls, logs. split; [exact Ht|]. split; [exact Hp | exact Hh].
Defined.


Lemma SearchSimilarWindows_returns_decodable_hits_witness :
  sample_marshal [16] 5 = Ok "{}"
  ∧ sample_es_search [16] 5 = Ok (Some ["hit"; "garbage"])
  ∧ (SearchSimilarWindows sample_vector sample_marshal sample_es_search
       sample_unmarshal_hit "windows" [16] 5).1.1
    = Ok [sample_doc].
Proof.
  split; [reflexivity|]. split; [reflexivity|].
  exact (proj2 (proj2 (SearchSimilarWindows_returns_decodable_hits sample_marshal
                         sample_es_search sample_unmarshal_hit "windows" [16] 5))
           "{}" (Some ["hit"; "garbage"]) eq_refl eq_refl).
Defined.



Lemma handleQuery_rejects_witness :
  Method get_request ≠ "POST"
  ∧ StatusCode (handleQuery sample_vector sample_decode sample_embed sample_search
                  sample_generate get_request).1.1 = 405.
Proof.
  assert (Hget : Method get_request ≠ "POST") by discriminate.
  split; [exact Hget|].
  exact (proj2 (proj1 (handleQuery_rejects sample_decode sample_embed sample_search
                         sample_generate get_request)) Hget).
Defined.

Lemma post_request_searches :
  CallSearchSimilarWindows sample_vector [16] 5
  ∈ (handleQuery sample_vector sample_decode sample_embed sample_search sample_generate
       post_request).1.2.
Proof. vm_compute. right. left. Qed.

Lemma handleQuery_calls_staged_witness :
  CallSearchSimilarWindows sample_vector [16] 5
  ∈ (handleQuery sample_vector sample_decode sample_embed sample_search sample_generate
       post_request).1.2
  ∧ ∃ prompt, sample_decode (Body post_request) = Some prompt
              ∧ sample_embed prompt = Ok [16].
Proof.
  split; [exact post_request_searches|].
  exact (proj2 (proj1 (proj2 (handleQuery_calls_staged sample_decode sample_embed
                                sample_search sample_generate post_request))
                  [16] 5 post_request_searches)).
Defined.

Lemma handleQuery_error_text_only_logged_witness :
  (∀ text, same_outcome (failing_embed "timeout" text) (failing_embed "refused" text))
  ∧ (handleQuery sample_vector sample_decode (failing_embed "timeout") sample_search
       sample_generate post_request).1
    = (handleQuery sample_vector sample_decode (failing_embed "refused") sample_search
         sample_generate post_request).1.
Proof.
  split; [exact (λ _, I)|].
  exact (handleQuery_error_text_only_logged sample_decode (failing_embed "timeout")
           (failing_embed "refused") sample_search sample_search sample_generate
           sample_generate post_request (λ _, I) (λ _ _, eq_refl) (λ _, eq_refl)).
Defined.

Lemma post_prompt_some : "how many orders?" ≠ "".
Proof. discriminate. Qed.

Lemma query_answers_from_decodable_hits_witness :
  Method post_request = "POST" ∧ sample_decode (Body post_request) = Some "how many orders?"
  ∧ "how many orders?" ≠ "" ∧ sample_embed "how many orders?" = Ok [16]
  ∧ sample_marshal [16] 5 = Ok "{}"
  ∧ sample_es_search [16] 5 = Ok (Some ["hit"; "garbage"])
  ∧ (handleQuery sample_vector sample_decode sample_embed
       (λ q k, (SearchSimilarWindows sample_vector sample_marshal sample_es_search
                  sample_unmarshal_hit "windows" q k).1.1)
       sample_generate post_request).1.2
    = [CallGetEmbedding sample_vector "how many orders?";
       CallSearchSimilarWindows sample_vector [16] 5;
       CallGenerateContent sample_vector
         (buildRAGPrompt sample_vector "how many orders?" [sample_doc])].
Proof.
  split; [reflexivity|]. split; [reflexivity|]. split; [exact post_prompt_some|].
  split; [reflexivity|]. split; [reflexivity|]. split; [reflexivity|].
  exact (proj1 (query_answers_from_decodable_hits sample_decode sample_embed sample_marshal
                  sample_es_search sample_unmarshal_hit sample_generate "windows"
                  post_request "how many orders?" "{}" [16] (Some ["hit"; "garbage"])
                  eq_refl eq_refl post_prompt_some eq_refl eq_refl eq_refl)).
Defined.
